(** * ai-candyshop: JSON extraction, the ReAct agent loop, page merging,
      research persistence and code-base merging

    A shallow embedding of the parts of the repository that carry
    behaviour worth stating:

    - [research_exa.extract_json_from_response] and
      [thinking_ReAct.extract_json_from_text], the two JSON-extraction
      heuristics;
    - [thinking_ReAct.run_gemini_simulation], the bounded agent loop;
    - [pdf2md.main], the page-ordered merge of the OCR results;
    - [research_exa.save_research] / [research_exa.load_research];
    - [merge_codebase_context.process_path];
    - [thinking_ReAct.call_llm_step], the reading of the streamed reply,
      and [thinking_ReAct.tools_visit];
    - [research_exa.init_research_session],
      [research_exa.generate_search_queries] and the two
      [analyze_sources] functions;
    - [pdf2md.refine_full_text_llm] and the files [pdf2md.main] writes;
    - [merge_codebase_context.main] with [clone_repo].

    Python [str] values are lists of Unicode code points.  The Python
    library functions the code calls ([json.loads], [re.search],
    [str.strip], [sorted], ...) are modelled next to the code that uses
    them; network calls and the clock are parameters. *)

From Stdlib Require Import ZArith NArith Lia Ascii String.
From stdpp Require Import base option list sorting gmap.

Local Set Warnings "-register-all".
Local Open Scope N_scope.

(** ** Python strings *)

Abbreviation char := N.
Abbreviation str := (list char).

(** A Rocq string literal read as a Python string (one code point per byte). *)
Definition lit (s : string) : str := N_of_ascii <$> list_ascii_of_string s.

(** The same, with every apostrophe standing for a double quote, to
    write JSON texts. *)
Definition jlit (s : string) : str :=
  (fun c => if c =? 39 then 34 else c) <$> lit s.

Arguments lit : simpl never.
Arguments jlit : simpl never.

(** [str.isspace] on one code point: the characters [str.strip] removes
    and the regular-expression class [\s] matches. *)
Definition isspace (c : char) : bool :=
  ((9 <=? c) && (c <=? 13)) || ((28 <=? c) && (c <=? 32))
  || (c =? 133) || (c =? 160) || (c =? 5760)
  || ((8192 <=? c) && (c <=? 8202))
  || (c =? 8232) || (c =? 8233) || (c =? 8239) || (c =? 8287) || (c =? 12288).

Fixpoint lstrip (s : str) : str :=
  match s with
  | c :: s' => if isspace c then lstrip s' else s
  | [] => []
  end.

Definition rstrip (s : str) : str := reverse (lstrip (reverse s)).

(** [s.strip()] *)
Definition strip (s : str) : str := rstrip (lstrip s).

(** [sep.join(parts)] *)
Fixpoint join (sep : str) (parts : list str) : str :=
  match parts with
  | [] => []
  | [p] => p
  | p :: rest => p ++ sep ++ join sep rest
  end.

(** [s.find(c)] for a one-character needle; [None] stands for [-1]. *)
Fixpoint find (c : char) (s : str) : option nat :=
  match s with
  | [] => None
  | x :: s' => if x =? c then Some 0%nat else S <$> find c s'
  end.

(** [s.startswith(p)] *)
Fixpoint startswith (p s : str) : bool :=
  match p, s with
  | [], _ => true
  | a :: p', b :: s' => (a =? b) && startswith p' s'
  | _ :: _, [] => false
  end.

Definition str_eqb (a b : str) : bool := bool_decide (a = b).

(** ** JSON values, as [json.loads] builds them

    [JNull] is Python's [None].  A number with a fraction or an exponent
    becomes a Python [float]; the model keeps its literal text, so two
    equal [JFloat]s are equal floats (the converse is not claimed).
    A [dict] is its list of items in insertion order. *)

Inductive json :=
| JNull
| JBool (b : bool)
| JInt (z : Z)
| JFloat (lexeme : str)
| JStr (s : str)
| JArr (items : list json)
| JObj (members : list (str * json)).

(** [d[k] = v] on a dict: an existing key keeps its place. *)
Fixpoint dict_set (k : str) (v : json) (d : list (str * json)) : list (str * json) :=
  match d with
  | [] => [(k, v)]
  | (k', v') :: d' => if str_eqb k k' then (k, v) :: d' else (k', v') :: dict_set k v d'
  end.

(** [d.get(k)] *)
Fixpoint dict_lookup (k : str) (d : list (str * json)) : option json :=
  match d with
  | [] => None
  | (k', v) :: d' => if str_eqb k k' then Some v else dict_lookup k d'
  end.

(** [d.get(k, dflt)] *)
Definition dict_get (k : str) (dflt : json) (d : list (str * json)) : json :=
  default dflt (dict_lookup k d).

Definition is_digit (c : char) : bool := (48 <=? c) && (c <=? 57).

(** Is some mantissa digit of a float literal non-zero?  ([NaN] and the
    infinities are non-zero; rounding of tiny literals to [0.0] is not
    modelled.) *)
Fixpoint float_nonzero (lexeme : str) : bool :=
  match lexeme with
  | [] => false
  | c :: r =>
      if (c =? 101) || (c =? 69) then false
      else if (49 <=? c) && (c <=? 57) then true
      else if (c =? 78) || (c =? 73) then true
      else float_nonzero r
  end.

(** Python truth value of a decoded JSON value ([bool(v)]). *)
Definition truthy (v : json) : bool :=
  match v with
  | JNull => false
  | JBool b => b
  | JInt z => negb (z =? 0)%Z
  | JFloat lx => float_nonzero lx
  | JStr s => negb (bool_decide (s = []))
  | JArr l => negb (bool_decide (l = []))
  | JObj m => negb (bool_decide (m = []))
  end.

(** ** [json.loads]

    The decoder is modelled in two passes: a character-level scanner
    that produces tokens, and a recursive-descent parser on the tokens.
    It accepts what Python's decoder accepts (strict mode, default
    hooks): whitespace is space, tab, LF, CR; strings may not contain
    raw control characters; escapes are the JSON ones, with surrogate
    pairs joined; numbers follow the JSON grammar; [NaN], [Infinity]
    and [-Infinity] are accepted.  [None] stands for
    [json.JSONDecodeError]; the interpreter's resource limits are not
    modelled. *)

Inductive token :=
| TLBrace | TRBrace | TLBrack | TRBrack | TComma | TColon
| TVal (v : json).

Inductive lstate :=
| LIdle
| LStr (acc : str)                       (* inside a string; [acc] reversed *)
| LEsc (acc : str)                       (* after a backslash *)
| LHex (acc : str) (k : nat) (v : N) (hi : option N)
                                         (* in [\uXXXX], [k] digits to go *)
| LHi (acc : str) (h : N)                (* after a high-surrogate escape *)
| LHiEsc (acc : str) (h : N)             (* ... followed by a backslash *)
| LNeg                                   (* after [-] *)
| LZero (neg : bool)                     (* after a leading [0] *)
| LInt (neg : bool) (n : N)              (* in the integer part *)
| LFrac0 (lx : str)                      (* after [.], digit required *)
| LFrac (lx : str)                       (* in the fraction *)
| LExp0 (lx : str)                       (* after [e], sign or digit required *)
| LExp1 (lx : str)                       (* after the sign, digit required *)
| LExp (lx : str)                        (* in the exponent *)
| LLit (rest : str) (v : json).          (* in [true], [false], [null], ... *)

Definition is_json_ws (c : char) : bool :=
  (c =? 32) || (c =? 9) || (c =? 10) || (c =? 13).

Definition hex_val (c : char) : option N :=
  if (48 <=? c) && (c <=? 57) then Some (c - 48)
  else if (97 <=? c) && (c <=? 102) then Some (c - 87)
  else if (65 <=? c) && (c <=? 70) then Some (c - 55)
  else None.

Definition is_high_surrogate (v : N) : bool := (55296 <=? v) && (v <=? 56319).
Definition is_low_surrogate (v : N) : bool := (56320 <=? v) && (v <=? 57343).
Definition join_surrogates (h l : N) : N := 65536 + (h - 55296) * 1024 + (l - 56320).

Definition int_of (neg : bool) (n : N) : Z :=
  if neg then (- Z.of_N n)%Z else Z.of_N n.

Definition sign_lexeme (neg : bool) : str := if neg then [45] else [].

(** Decimal digits of [n], least significant first, by repeated division. *)
Fixpoint digits_rev (fuel : nat) (n : N) : str :=
  match fuel with
  | O => []
  | S f => (48 + n mod 10) :: (if n <? 10 then [] else digits_rev f (n / 10))
  end.

Definition decimal (n : N) : str := reverse (digits_rev (S (N.to_nat (N.log2 n))) n).

(** One step of the scanner outside strings and numbers. *)
Definition idle_step (c : char) : option (lstate * list token) :=
  if is_json_ws c then Some (LIdle, [])
  else if c =? 123 then Some (LIdle, [TLBrace])                      (* { *)
  else if c =? 125 then Some (LIdle, [TRBrace])                      (* } *)
  else if c =? 91 then Some (LIdle, [TLBrack])                       (* [ *)
  else if c =? 93 then Some (LIdle, [TRBrack])                       (* ] *)
  else if c =? 44 then Some (LIdle, [TComma])                        (* , *)
  else if c =? 58 then Some (LIdle, [TColon])                        (* : *)
  else if c =? 34 then Some (LStr [], [])                            (* quote *)
  else if c =? 45 then Some (LNeg, [])                               (* - *)
  else if c =? 48 then Some (LZero false, [])                        (* 0 *)
  else if is_digit c then Some (LInt false (c - 48), [])
  else if c =? 116 then Some (LLit (lit "rue") (JBool true), [])     (* t *)
  else if c =? 102 then Some (LLit (lit "alse") (JBool false), [])   (* f *)
  else if c =? 110 then Some (LLit (lit "ull") JNull, [])            (* n *)
  else if c =? 78 then Some (LLit (lit "aN") (JFloat (lit "NaN")), [])            (* N *)
  else if c =? 73 then Some (LLit (lit "nfinity") (JFloat (lit "Infinity")), [])  (* I *)
  else None.

(** A number ended before [c]: emit it and scan [c] afresh. *)
Definition emit_then (v : json) (c : char) : option (lstate * list token) :=
  match idle_step c with
  | Some (st, toks) => Some (st, TVal v :: toks)
  | None => None
  end.

(** One step inside a string body. *)
Definition str_step (acc : str) (c : char) : option (lstate * list token) :=
  if c =? 34 then Some (LIdle, [TVal (JStr (reverse acc))])   (* closing quote *)
  else if c =? 92 then Some (LEsc acc, [])                     (* backslash *)
  else if c <? 32 then None                                    (* control character *)
  else Some (LStr (c :: acc), []).

(** One step after a backslash. *)
Definition esc_step (acc : str) (c : char) : option (lstate * list token) :=
  if c =? 34 then Some (LStr (34 :: acc), [])          (* quote *)
  else if c =? 92 then Some (LStr (92 :: acc), [])     (* backslash *)
  else if c =? 47 then Some (LStr (47 :: acc), [])     (* slash *)
  else if c =? 98 then Some (LStr (8 :: acc), [])      (* b, backspace *)
  else if c =? 102 then Some (LStr (12 :: acc), [])    (* f, form feed *)
  else if c =? 110 then Some (LStr (10 :: acc), [])    (* n, line feed *)
  else if c =? 114 then Some (LStr (13 :: acc), [])    (* r, carriage return *)
  else if c =? 116 then Some (LStr (9 :: acc), [])     (* t, tab *)
  else if c =? 117 then Some (LHex acc 4 0 None, [])   (* u, four hex digits *)
  else None.

Definition step (st : lstate) (c : char) : option (lstate * list token) :=
  match st with
  | LIdle => idle_step c
  | LStr acc => str_step acc c
  | LEsc acc => esc_step acc c
  | LHex acc k v hi =>
      match hex_val c with
      | None => None
      | Some d =>
          let v' := v * 16 + d in
          match k with
          | 1%nat =>
              match hi with
              | Some h =>
                  if is_low_surrogate v' then Some (LStr (join_surrogates h v' :: acc), [])
                  else if is_high_surrogate v' then Some (LHi (h :: acc) v', [])
                  else Some (LStr (v' :: h :: acc), [])
              | None =>
                  if is_high_surrogate v' then Some (LHi acc v', [])
                  else Some (LStr (v' :: acc), [])
              end
          | _ => Some (LHex acc (pred k) v' hi, [])
          end
      end
  | LHi acc h =>
      if c =? 92 then Some (LHiEsc acc h, []) else str_step (h :: acc) c
  | LHiEsc acc h =>
      if c =? 117 then Some (LHex acc 4 0 (Some h), []) else esc_step (h :: acc) c
  | LNeg =>
      if c =? 48 then Some (LZero true, [])
      else if is_digit c then Some (LInt true (c - 48), [])
      else if c =? 73 then Some (LLit (lit "nfinity") (JFloat (lit "-Infinity")), [])
      else None
  | LZero neg =>
      if is_digit c then None
      else if c =? 46 then Some (LFrac0 (sign_lexeme neg ++ [48; 46]), [])
      else if (c =? 101) || (c =? 69) then Some (LExp0 (sign_lexeme neg ++ [48; c]), [])
      else emit_then (JInt 0) c
  | LInt neg n =>
      if is_digit c then Some (LInt neg (n * 10 + (c - 48)), [])
      else if c =? 46 then Some (LFrac0 (sign_lexeme neg ++ decimal n ++ [46]), [])
      else if (c =? 101) || (c =? 69) then Some (LExp0 (sign_lexeme neg ++ decimal n ++ [c]), [])
      else emit_then (JInt (int_of neg n)) c
  | LFrac0 lx =>
      if is_digit c then Some (LFrac (lx ++ [c]), []) else None
  | LFrac lx =>
      if is_digit c then Some (LFrac (lx ++ [c]), [])
      else if (c =? 101) || (c =? 69) then Some (LExp0 (lx ++ [c]), [])
      else emit_then (JFloat lx) c
  | LExp0 lx =>
      if (c =? 43) || (c =? 45) then Some (LExp1 (lx ++ [c]), [])
      else if is_digit c then Some (LExp (lx ++ [c]), [])
      else None
  | LExp1 lx =>
      if is_digit c then Some (LExp (lx ++ [c]), []) else None
  | LExp lx =>
      if is_digit c then Some (LExp (lx ++ [c]), [])
      else emit_then (JFloat lx) c
  | LLit rest v =>
      match rest with
      | [] => None
      | [x] => if c =? x then Some (LIdle, [TVal v]) else None
      | x :: rest' => if c =? x then Some (LLit rest' v, []) else None
      end
  end.

(** What the scanner holds when the input ends. *)
Definition finish (st : lstate) : option (list token) :=
  match st with
  | LIdle => Some []
  | LZero _ => Some [TVal (JInt 0)]
  | LInt neg n => Some [TVal (JInt (int_of neg n))]
  | LFrac lx | LExp lx => Some [TVal (JFloat lx)]
  | _ => None
  end.

Fixpoint lex (st : lstate) (s : str) : option (list token) :=
  match s with
  | [] => finish st
  | c :: s' =>
      match step st c with
      | None => None
      | Some (st', toks) =>
          match lex st' s' with
          | None => None
          | Some rest => Some (toks ++ rest)
          end
      end
  end.

(** The parser: a value, the elements of an array after [[], the members
    of an object after [{].  [fuel] bounds the number of calls. *)
Fixpoint parse_value (fuel : nat) (ts : list token) : option (json * list token) :=
  match fuel with
  | O => None
  | S f =>
      match ts with
      | TVal v :: r => Some (v, r)
      | TLBrack :: TRBrack :: r => Some (JArr [], r)
      | TLBrack :: r => parse_elems f r []
      | TLBrace :: TRBrace :: r => Some (JObj [], r)
      | TLBrace :: r => parse_members f r []
      | _ => None
      end
  end
with parse_elems (fuel : nat) (ts : list token) (acc : list json)
  : option (json * list token) :=
  match fuel with
  | O => None
  | S f =>
      match parse_value f ts with
      | Some (v, TComma :: r) => parse_elems f r (acc ++ [v])
      | Some (v, TRBrack :: r) => Some (JArr (acc ++ [v]), r)
      | _ => None
      end
  end
with parse_members (fuel : nat) (ts : list token) (acc : list (str * json))
  : option (json * list token) :=
  match fuel with
  | O => None
  | S f =>
      match ts with
      | TVal (JStr k) :: TColon :: r =>
          match parse_value f r with
          | Some (v, TComma :: r') => parse_members f r' (dict_set k v acc)
          | Some (v, TRBrace :: r') => Some (JObj (dict_set k v acc), r')
          | _ => None
          end
      | _ => None
      end
  end.

(** [json.loads(s)]: one value, nothing but whitespace around it. *)
Definition json_loads (s : str) : option json :=
  match lex LIdle s with
  | None => None
  | Some ts =>
      match parse_value (2 * length ts + 2) ts with
      | Some (v, []) => Some v
      | _ => None
      end
  end.

(** ** Regular expressions ([re.search] with [re.DOTALL])

    The constructs the patterns of the repository use, matched by
    backtracking in Python's order: a greedy quantifier tries the
    longest repetition first, a lazy one the shortest.  Quantified
    sub-patterns are single character classes.  A match carries what
    group 1 captured. *)

Inductive regex :=
| RLit (s : str)                 (* literal text *)
| RSeq (r1 r2 : regex)
| ROpt (r : regex)               (* [(?:r)?], greedy *)
| RStar (cls : char → bool)      (* [c*], greedy *)
| RLazy (cls : char → bool)      (* [c*?], lazy *)
| RGroup (r : regex).            (* [(r)], the capture group *)

Definition any_char (c : char) : bool := true.   (* [.] under DOTALL *)

Section Matcher.
Context {A : Type}.

Fixpoint star_greedy (cls : char → bool) (s : str) (k : str → option A) : option A :=
  match s with
  | c :: s' =>
      if cls c then
        match star_greedy cls s' k with
        | Some r => Some r
        | None => k s
        end
      else k s
  | [] => k []
  end.

Fixpoint star_lazy (cls : char → bool) (s : str) (k : str → option A) : option A :=
  match k s with
  | Some r => Some r
  | None =>
      match s with
      | c :: s' => if cls c then star_lazy cls s' k else None
      | [] => None
      end
  end.

(** [rmatch r s g k]: match [r] at the head of [s], then continue with
    [k] on the rest of the input and the capture. *)
Fixpoint rmatch (r : regex) (s : str) (g : option str)
    (k : str → option str → option A) : option A :=
  match r with
  | RLit p => if startswith p s then k (drop (length p) s) g else None
  | RSeq r1 r2 => rmatch r1 s g (fun s1 g1 => rmatch r2 s1 g1 k)
  | ROpt r1 =>
      match rmatch r1 s g k with
      | Some x => Some x
      | None => k s g
      end
  | RStar cls => star_greedy cls s (fun s1 => k s1 g)
  | RLazy cls => star_lazy cls s (fun s1 => k s1 g)
  | RGroup r1 =>
      rmatch r1 s g (fun s1 _ => k s1 (Some (take (length s - length s1) s)))
  end.
End Matcher.

(** [re.search(r, s)]: the leftmost match; the result is [m.group(1)]. *)
Fixpoint re_search (r : regex) (s : str) : option (option str) :=
  match rmatch r s None (fun _ g => Some g) with
  | Some g => Some g
  | None =>
      match s with
      | [] => None
      | _ :: s' => re_search r s'
      end
  end.

(** [m.group(1)]; the group takes part in every match of the patterns below. *)
Definition group1 (m : option str) : str := default [] m.

Definition fence : str := lit "```".

(** ** research_exa.py *)

Module research_exa.

(** [r"```(?:json)?\s*(.*?)\s*```"] *)
Definition code_block_pattern : regex :=
  RSeq (RLit fence) (RSeq (ROpt (RLit (lit "json"))) (RSeq (RStar isspace)
    (RSeq (RGroup (RLazy any_char)) (RSeq (RStar isspace) (RLit fence))))).

(** [r"(\{.*\})"] *)
Definition json_obj_pattern : regex :=
  RGroup (RSeq (RLit (lit "{")) (RSeq (RStar any_char) (RLit (lit "}")))).

(** [r"(\[.*\])"] *)
Definition json_arr_pattern : regex :=
  RGroup (RSeq (RLit (lit "[")) (RSeq (RStar any_char) (RLit (lit "]")))).

(** [extract_json_from_response(content, default)].  Each
    [try: return json.loads(..) except json.JSONDecodeError: pass]
    is a match on the decoder's result. *)
Definition extract_json_from_response (content : str) (default : json) : json :=
  if bool_decide (content = []) then default
  else
    let content := strip content in
    match json_loads content with
    | Some v => v
    | None =>
        let fenced :=
          match re_search code_block_pattern content with
          | Some m => json_loads (group1 m)
          | None => None
          end in
        match fenced with
        | Some v => v
        | None =>
            let object :=
              match re_search json_obj_pattern content with
              | Some m => json_loads (group1 m)
              | None => None
              end in
            match object with
            | Some v => v
            | None =>
                let array :=
                  match re_search json_arr_pattern content with
                  | Some m => json_loads (group1 m)
                  | None => None
                  end in
                match array with
                | Some v => v
                | None => default
                end
            end
        end
    end.

(** *** Persistence of a research session *)

Definition RESEARCH_DIR : str := lit "output/DeepResearch".

(** [os.path.join(RESEARCH_DIR, filename)] on a POSIX system. *)
Definition path_join (dir name : str) : str :=
  if startswith (lit "/") name then name else dir ++ lit "/" ++ name.

(** An instance of [class ResearchStep]; Python does not type the
    attributes, so each holds any JSON-representable value. *)
Record ResearchStep := {
  query : json;
  step_type : json;
  sources : json;
  analysis : json;
  reasoning : json;
  timestamp : json
}.

(** [ResearchStep.__init__]; [now] is [datetime.now().isoformat()]. *)
Definition ResearchStep_init (now : str)
    (query step_type sources analysis reasoning : json) : ResearchStep :=
  {| query := query;
     step_type := step_type;
     sources := if truthy sources then sources else JArr [];
     analysis := analysis;
     reasoning := reasoning;
     timestamp := JStr now |}.



(** [v[k]] for a string key: a [KeyError] or [TypeError] is [None]. *)
Definition subscript (v : json) (k : str) : option json :=
  match v with
  | JObj d => dict_lookup k d
  | _ => None
  end.

(** [v.get(k, dflt)]: a value that is no dict has no [get]. *)
Definition get (v : json) (k : str) (dflt : json) : option json :=
  match v with
  | JObj d => Some (dict_get k dflt d)
  | _ => None
  end.

(** What [for x in v] iterates over; [None] when [v] is not iterable. *)
Definition iterate (v : json) : option (list json) :=
  match v with
  | JArr l => Some l
  | JStr s => Some ((fun c => JStr [c]) <$> s)
  | JObj d => Some ((fun kv => JStr kv.1) <$> d)
  | _ => None
  end.

Section Persistence.
(** [json.dump(v, f, ensure_ascii=False, indent=2)] as the text it
    writes, and the clock: [clock n] is the [n]-th reading of
    [datetime.now().isoformat()]. *)
Variable json_dump : json → str.
Variable clock : nat → str.

(** The files under their paths. *)
Definition filesystem := gmap str str.


(** The body of the loop of [load_research] for one [step_data]. *)
Definition load_step (now : str) (step_data : json) : option ResearchStep :=
  q ← subscript step_data (lit "query");
  t ← subscript step_data (lit "step_type");
  s ← get step_data (lit "sources") (JArr []);
  a ← get step_data (lit "analysis") (JStr []);
  r ← get step_data (lit "reasoning") (JStr []);
  Some (ResearchStep_init now q t s a r).

Fixpoint load_steps (n : nat) (items : list json) : option (list ResearchStep) :=
  match items with
  | [] => Some []
  | step_data :: rest =>
      step ← load_step (clock n) step_data;
      steps ← load_steps (S n) rest;
      Some (step :: steps)
  end.

(** [load_research(filename)]; [None] when it raises. *)
Definition load_research (fs : filesystem) (filename : str)
    : option (json * list ResearchStep) :=
  let filepath := path_join RESEARCH_DIR filename in
  text ← fs !! filepath;
  data ← json_loads text;
  items ← subscript data (lit "steps") ≫= iterate;
  steps ← load_steps 1 items;
  query ← subscript data (lit "query");
  Some (query, steps).
End Persistence.

(** *** The session state and the search queries *)

(** [st.session_state]: the keys that are set, with their values. *)
Definition session_state := gmap str json.

(** [if key not in st.session_state: st.session_state.key = value] *)
Definition init_key (key : str) (value : json) (session : session_state)
    : session_state :=
  if bool_decide (is_Some (session !! key)) then session
  else <[key := value]> session.

Definition init_research_session (session : session_state) : session_state :=
  let session := init_key (lit "research_query") (JStr []) session in
  let session := init_key (lit "research_steps") (JArr []) session in
  let session := init_key (lit "current_research") JNull session in
  let session := init_key (lit "research_depth") (JInt 3) session in
  let session := init_key (lit "max_sources_per_step") (JInt 5) session in
  init_key (lit "research_in_progress") (JBool false) session.

(** [len(v)]; [None] is the [TypeError] of a value without length. *)
Definition len (v : json) : option nat :=
  match v with
  | JStr s => Some (length s)
  | JArr l => Some (length l)
  | JObj d => Some (length d)
  | _ => None
  end.

(** [generate_search_queries], from the reply of the model on:
    [reply] is [response.choices[0].message.content], [None] when the
    call raised or the message has no text.  Whatever raises inside
    the [try] block ends in [return [main_query]]. *)
Definition generate_search_queries (main_query : str) (reply : option str) : json :=
  let attempt :=
    content ← reply;
    let result := extract_json_from_response (strip content) JNull in
    queries ← get result (lit "queries") (JArr [JStr main_query]);
    _ ← len queries;                       (* the log line takes [len(queries)] *)
    Some queries in
  default (JArr [JStr main_query]) attempt.

(** *** The streamed analysis *)

(** A chunk of a streamed completion: the [content] of
    [chunk.choices[0].delta], and its [reasoning_content] when the
    delta has the attribute ([None] in either is Python's [None]); or
    the exception raised in place of the chunk, with its message. *)
Inductive chunk :=
| Chunk (content : option str) (reasoning_content : option (option str))
| Broken (message : str).

(** [x or ""] *)
Definition or_empty (x : option str) : str := default [] x.

(** [bool(x)] for a string or [None]. *)
Definition has_text (x : option str) : bool :=
  match x with
  | Some (_ :: _) => true
  | _ => false
  end.

(** The beginning of the text returned for a failure, and the cursor
    shown behind a partial analysis. *)
Definition analysis_failed : str := [20998; 26512; 22833; 36133; 58; 32].
Definition cursor : str := [9612].

(** The [for chunk in stream] loop of [analyze_sources], with what
    the [except] branch returns. *)
Fixpoint analyze_chunks (stream : list chunk) (full_analysis full_reasoning : str)
    : str * str :=
  match stream with
  | [] => (full_analysis, full_reasoning)
  | Chunk content reasoning_content :: stream' =>
      let full_analysis :=
        if has_text content then full_analysis ++ or_empty content
        else full_analysis in
      let full_reasoning :=
        match reasoning_content with
        | Some reasoning => full_reasoning ++ or_empty reasoning
        | None => full_reasoning
        end in
      analyze_chunks stream' full_analysis full_reasoning
  | Broken message :: _ => (analysis_failed ++ message, [])
  end.

(** [analyze_sources], from the reply of the model on: the stream, or
    the message of the exception the request raised. *)
Definition analyze_sources (stream : str + list chunk) : str * str :=
  match stream with
  | inr chunks => analyze_chunks chunks [] []
  | inl message => (analysis_failed ++ message, [])
  end.

(** The loop of [analyze_sources_streaming]; [shown] collects the
    texts handed to [placeholder.markdown], [placeholder] tells
    whether there is one. *)
Fixpoint analyze_chunks_streaming (placeholder : bool) (stream : list chunk)
    (full_analysis full_reasoning : str) (shown : list str)
    : (str * str) * list str :=
  match stream with
  | [] =>
      ((full_analysis, full_reasoning),
       if placeholder then shown ++ [full_analysis] else shown)
  | Chunk content reasoning_content :: stream' =>
      let '(full_analysis, shown) :=
        if has_text content then
          let full_analysis := full_analysis ++ or_empty content in
          (full_analysis,
           if placeholder then shown ++ [full_analysis ++ cursor] else shown)
        else (full_analysis, shown) in
      let full_reasoning :=
        match reasoning_content with
        | Some reasoning => full_reasoning ++ or_empty reasoning
        | None => full_reasoning
        end in
      analyze_chunks_streaming placeholder stream' full_analysis full_reasoning shown
  | Broken message :: _ => ((analysis_failed ++ message, []), shown)
  end.

Definition analyze_sources_streaming (placeholder : bool) (stream : str + list chunk)
    : (str * str) * list str :=
  match stream with
  | inr chunks => analyze_chunks_streaming placeholder chunks [] [] []
  | inl message => ((analysis_failed ++ message, []), [])
  end.

End research_exa.

(** ** thinking_ReAct.py *)

Module thinking_ReAct.

(** [r"```(?:json)?\s*(\{.*?\})\s*```"] *)
Definition fenced_object_pattern : regex :=
  RSeq (RLit fence) (RSeq (ROpt (RLit (lit "json"))) (RSeq (RStar isspace)
    (RSeq (RGroup (RSeq (RLit (lit "{")) (RSeq (RLazy any_char) (RLit (lit "}")))))
      (RSeq (RStar isspace) (RLit fence))))).

(** The [for i in range(start, len(text))] loop: [rest] is
    [text[i:]], [n] is [i - start].  It stops at the first [i] where
    the count is zero and yields [i - start]. *)
Fixpoint bracket_scan (rest : str) (bracket_count : Z) (n : nat) : option nat :=
  match rest with
  | [] => None
  | c :: rest' =>
      let bracket_count :=
        if c =? 123 then (bracket_count + 1)%Z           (* text[i] == '{' *)
        else if c =? 125 then (bracket_count - 1)%Z      (* text[i] == '}' *)
        else bracket_count in
      if (bracket_count =? 0)%Z then Some n
      else bracket_scan rest' bracket_count (S n)
  end.

(** [extract_json_from_text(text)]; a bare [except: pass] swallows
    every failure of its [try] block. *)
Definition extract_json_from_text (text : str) : json :=
  if bool_decide (text = []) then JNull
  else
    match json_loads text with
    | Some v => v
    | None =>
        let fenced :=
          match re_search fenced_object_pattern text with
          | Some m => json_loads (group1 m)
          | None => None
          end in
        match fenced with
        | Some v => v
        | None =>
            match find 123 text with                      (* text.find('{') *)
            | None => JNull
            | Some start =>
                match bracket_scan (drop start text) 0 0 with
                | Some n =>
                    match json_loads (take (S n) (drop start text)) with
                    | Some v => v
                    | None => JNull
                    end
                | None => JNull
                end
            end
        end
    end.

(** *** The agent loop *)

Record message := Message { role : str; content : str }.

(** What the loop does to the outside world, in order. *)
Inductive event :=
| LLMCall (history : list message)
| SearchCall (query : json)
| VisitCall (url : json).

Record state := State {
  messages : list message;
  step : nat;
  trace : list event
}.

(** How a run ends: [return action_input], the [break] on an empty
    response, the loop condition turning false, or the
    [AttributeError] of [decision.get] on a value that is no dict. *)
Inductive exit :=
| Answer (action_input : json)
| EmptyResponse
| MaxSteps
| AttributeError.

Inductive round_result :=
| Next (st : state)
| Exit (e : exit) (st : state).

Definition max_steps : nat := 7.

Definition system_prompt : str := jlit "
    You are Gemini 3 Pro simulator.
    
    TOOLS:
    1. 'search': Use to find URLs. (Returns summaries only).
    2. 'visit': Use to read the EXTENSIVE content of a URL. 
       Note: This tool can fetch up to 40,000 characters. 
       USE THIS for technical reports, papers, or when looking for specific data points buried deep in text.
    
    PROTOCOL:
    1. Output decision in STRICT JSON format.
    
    JSON FORMATS:
    
    [Search]:
    {'thought': 'Need to find external info...', 'action': 'search', 'action_input': 'query'}
    
    [Visit URL]:
    {'thought': 'Result #1 looks promising but summary is too short...', 'action': 'visit', 'action_input': 'https://url...'}
    
    [Answer]:
    {'thought': 'I have enough info...', 'action': 'answer', 'action_input': 'Final answer'}
    ".

Definition parse_error_message : message :=
  Message (lit "user") (lit "Error: No valid JSON found. Please output ONLY JSON.").

(** [v == s] for a decoded value [v] and a string literal [s]. *)
Definition eq_str (v : json) (s : str) : bool :=
  match v with
  | JStr x => str_eqb x s
  | _ => false
  end.

Section Agent.
(** [call_llm_step]: the reply to the [n]-th call, given the
    history, as the pair of ["content"] and ["reasoning"]. *)
Variable call_llm_step : nat → list message → str * str.
Variable tools_search : json → str.
Variable tools_visit : json → str.
(** [json.dumps(v, ensure_ascii=False)] and [f"{v}"]. *)
Variable json_dumps : json → str.
Variable format : json → str.

(** One pass through the body of the [while] loop. *)
Definition round (st : state) : round_result :=
  let calls := step st in
  let step := S calls in
  let result := call_llm_step calls (messages st) in
  let trace := trace st ++ [LLMCall (messages st)] in
  if bool_decide (result.1 = []) && bool_decide (result.2 = []) then
    Exit EmptyResponse (State (messages st) step trace)
  else
    let decision := extract_json_from_text result.1 in
    let decision :=
      if negb (truthy decision) then extract_json_from_text result.2
      else decision in
    if negb (truthy decision) then
      Next (State (messages st ++ [parse_error_message]) step trace)
    else
      match decision with
      | JObj d =>
          let action := dict_get (lit "action") (JStr []) d in
          let action_input := dict_get (lit "action_input") (JStr []) d in
          let dispatched :=
            if eq_str action (lit "search") then
              inl (tools_search action_input, trace ++ [SearchCall action_input])
            else if eq_str action (lit "visit") then
              inl (tools_visit action_input, trace ++ [VisitCall action_input])
            else if eq_str action (lit "answer") then
              inr action_input
            else
              inl (lit "Unknown action: " ++ format action, trace) in
          match dispatched with
          | inr answer => Exit (Answer answer) (State (messages st) step trace)
          | inl (observation, trace) =>
              Next (State
                (messages st
                   ++ [Message (lit "assistant") (json_dumps decision)]
                   ++ [Message (lit "user")
                         (lit "Observation from " ++ format action ++ lit ":" ++ [10]
                            ++ observation)])
                step trace)
          end
      | _ => Exit AttributeError (State (messages st) step trace)
      end.

(** [while step < max_steps: ...]; [fuel] bounds the number of passes. *)
Fixpoint loop (fuel : nat) (st : state) : option (exit * state) :=
  if (step st <? max_steps)%nat then
    match fuel with
    | O => None
    | S fuel' =>
        match round st with
        | Next st' => loop fuel' st'
        | Exit e st' => Some (e, st')
        end
    end
  else Some (MaxSteps, st).

Definition initial_state (user_query : str) : state :=
  State [Message (lit "system") system_prompt; Message (lit "user") user_query] 0 [].

Definition run_gemini_simulation (user_query : str) : option (exit * state) :=
  loop max_steps (initial_state user_query).

(** The value the Python function returns. *)
Definition return_value (e : exit) : option json :=
  match e with
  | Answer v => Some v
  | EmptyResponse | MaxSteps => Some JNull
  | AttributeError => None
  end.
End Agent.

(** *** The streamed reply of the model *)

(** [p in s] for two strings. *)
Fixpoint substring (p s : str) : bool :=
  startswith p s
  || match s with
     | [] => false
     | _ :: s' => substring p s'
     end.

(** [k in v] for a string [k]: a key of a dict, an element of a list,
    a part of a string; [None] is the [TypeError] of the other values. *)
Definition py_in (k : str) (v : json) : option bool :=
  match v with
  | JObj d => Some (bool_decide (is_Some (dict_lookup k d)))
  | JArr l => Some (existsb (fun x => eq_str x k) l)
  | JStr s => Some (substring k s)
  | _ => None
  end.

(** [v[0]]; [None] is an [IndexError], [KeyError] or [TypeError]. *)
Definition first_item (v : json) : option json :=
  match v with
  | JArr (x :: _) => Some x
  | JStr (c :: _) => Some (JStr [c])
  | _ => None
  end.

(** The two lists [call_llm_step] fills. *)
Record stream := Stream {
  full_content : list json;
  full_reasoning : list json
}.

(** [chunk["choices"][0]["delta"]] behind the test that skips a chunk
    without choices; [None] when the chunk is skipped, by [continue]
    or by an exception. *)
Definition chunk_delta (chunk : json) : option json :=
  match py_in (lit "choices") chunk with
  | Some true =>
      choices ← research_exa.subscript chunk (lit "choices");
      if truthy choices then
        choice ← first_item choices;
        research_exa.subscript choice (lit "delta")
      else None
  | _ => None
  end.

(** [if k in delta: v = delta[k]; if v: acc.append(v)]; [None] when
    it raises. *)
Definition append_delta (k : str) (delta : json) (acc : list json)
    : option (list json) :=
  match py_in k delta with
  | Some true =>
      v ← research_exa.subscript delta k;
      Some (if truthy v then acc ++ [v] else acc)
  | Some false => Some acc
  | None => None
  end.

(** The [try] block for the text [s] of a line; an exception leaves
    the lists as they are when it is raised. *)
Definition process_chunk (st : stream) (s : str) : stream :=
  match json_loads s ≫= chunk_delta with
  | None => st
  | Some delta =>
      match append_delta (lit "reasoning_content") delta (full_reasoning st) with
      | None => st
      | Some full_reasoning =>
          match append_delta (lit "content") delta (full_content st) with
          | None => Stream (full_content st) full_reasoning
          | Some full_content => Stream full_content full_reasoning
          end
      end
  end.

(** [if s.startswith("data: "): s = s[len("data: "):]] *)
Definition payload (line : str) : str :=
  if startswith (lit "data: ") line then drop (length (lit "data: ")) line else line.

(** The loop over [resp.iter_lines()], on lines already decoded. *)
Fixpoint read_lines (lines : list str) (st : stream) : stream :=
  match lines with
  | [] => st
  | line :: lines' =>
      if bool_decide (line = []) then read_lines lines' st
      else
        let s := payload line in
        if bool_decide (strip s = lit "[DONE]") then st
        else read_lines lines' (process_chunk st s)
  end.

(** ["".join(parts)]; [None] is the [TypeError] of a part that is no
    string. *)
Fixpoint join_strings (parts : list json) : option str :=
  match parts with
  | [] => Some []
  | JStr s :: parts' => (fun rest => s ++ rest) <$> join_strings parts'
  | _ :: _ => None
  end.

(** What [requests.post] gives: an exception, or a status code and the
    lines of the body. *)
Inductive response :=
| RequestFailed
| Response (status_code : Z) (lines : list str).

(** [call_llm_step], from the HTTP response on: the pair of
    ["content"] and ["reasoning"], [None] when it raises. *)
Definition call_llm_step (resp : response) : option (str * str) :=
  match resp with
  | RequestFailed => Some ([], [])
  | Response status_code lines =>
      if negb (status_code =? 200)%Z then Some ([], [])
      else
        let st := read_lines lines (Stream [] []) in
        content ← join_strings (full_content st);
        reasoning ← join_strings (full_reasoning st);
        Some (content, reasoning)
  end.

(** *** The visit tool *)

(** [re.sub(r, repl, s)] for a pattern [r] that matches no empty
    string: the matches are taken from left to right, each where the
    one before ended, and replaced by [repl].  Every step takes a
    character or more off [s], so [length s] is fuel enough. *)
Fixpoint re_sub (fuel : nat) (r : regex) (repl s : str) : str :=
  match fuel, s with
  | S fuel', c :: s' =>
      match rmatch r s None (fun rest _ => Some rest) with
      | Some rest => repl ++ re_sub fuel' r repl rest
      | None => c :: re_sub fuel' r repl s'
      end
  | _, _ => s
  end.

(** [r'\n\s*\n'] *)
Definition blank_lines_pattern : regex :=
  RSeq (RLit [10]) (RSeq (RStar isspace) (RLit [10])).

(** [re.sub(r'\n\s*\n', '\n\n', raw_text)] *)
Definition clean (raw_text : str) : str :=
  re_sub (length raw_text) blank_lines_pattern [10; 10] raw_text.

(** The characters of a page that are passed on. *)
Definition max_characters : nat := N.to_nat 40000.

(** [tools_visit(url)], given whether the key is set and what
    [requests.post(...).json()] gives, [None] when it raises.  The
    result [None] stands for the text [Visit failed: ...], whose
    wording is that of the exception; [format] is [f"{url}"]. *)
Definition tools_visit (format : json → str) (EXA_API_KEY : bool)
    (res : option json) (url : json) : option str :=
  if negb EXA_API_KEY then Some (lit "Error: EXA_API_KEY not set.")
  else
    res ← res;
    results ← research_exa.get res (lit "results") (JArr []);
    if negb (truthy results) then Some (lit "Failed to retrieve content.")
    else
      result ← first_item results;
      raw_text ← research_exa.get result (lit "text") (JStr []);
      match raw_text with
      | JStr raw_text =>
          let cleaned_text := clean raw_text in
          let content_len := length cleaned_text in
          if (max_characters <? content_len)%nat then
            Some (lit "--- Content of " ++ format url
                    ++ lit " (Truncated at 40k chars) ---" ++ [10]
                    ++ take max_characters cleaned_text ++ [10] ++ lit "--- End of Content ---")
          else
            Some (lit "--- Full Content of " ++ format url ++ lit " ---" ++ [10]
                    ++ cleaned_text ++ [10] ++ lit "--- End of Content ---")
      | _ => None                        (* [re.sub] takes a string *)
      end.

End thinking_ReAct.

(** ** pdf2md.py *)

Module pdf2md.

(** [pdf_to_images]: the pages, numbered from 1. *)
Definition pdf_to_images (doc : list str) : list (nat * str) :=
  imap (fun page_num image => (S page_num, image)) doc.

Definition max_workers : nat := 5.

Section Main.
(** The text the vision model returns for a page (empty when the
    call fails). *)
Variable vlm : nat → str → str.

Definition process_single_page_vlm (page_num : nat) (image_b64 : str) : nat * str :=
  (page_num, vlm page_num image_b64).

(** [results[page_num] = content] for every finished task, in the
    order [as_completed] hands them over. *)
Definition collect (completed : list (nat * str)) : gmap nat str :=
  foldl (fun results r => <[r.1 := r.2]> results) ∅ completed.

(** [sorted(results.keys())] *)
Definition sorted_pages (results : gmap nat str) : list nat :=
  merge_sort Nat.le (elements (dom results)).

(** ["\n\n".join([results[p] for p in sorted_pages])] *)
Definition raw_full_text (results : gmap nat str) : str :=
  join [10; 10] ((fun p => results !!! p) <$> sorted_pages results).

(** [main] up to [raw_full_text]; [as_completed] is the order in
    which the pool finishes the submitted tasks. *)
Definition main (doc : list str)
    (as_completed : list (nat * str) → list (nat * str)) : str :=
  let images := pdf_to_images doc in
  let futures := (fun pi => process_single_page_vlm pi.1 pi.2) <$> images in
  raw_full_text (collect (as_completed futures)).
End Main.

(** A chunk of the streamed reply: its
    [chunk.choices[0].delta.content], or the exception raised when
    the stream breaks at this point. *)
Inductive chunk :=
| Delta (content : option str)
| StreamError.

(** The [for chunk in response] loop of [refine_full_text_llm];
    [None] when it raises. *)
Fixpoint read_stream (response : list chunk) (full_content : str) : option str :=
  match response with
  | [] => Some full_content
  | Delta (Some content) :: response' =>
      if bool_decide (content = []) then read_stream response' full_content
      else read_stream response' (full_content ++ content)
  | Delta None :: response' => read_stream response' full_content
  | StreamError :: _ => None
  end.

Section Refine.
(** The streamed reply of the language model to the request that
    holds the raw text; [None] when the request raises. *)
Variable llm : str → option (list chunk).

Definition refine_full_text_llm (raw_markdown : str) : str :=
  match llm raw_markdown with
  | Some response =>
      match read_stream response [] with
      | Some full_content => full_content
      | None => raw_markdown
      end
  | None => raw_markdown
  end.

End Refine.

End pdf2md.

(** ** merge_codebase_context.py *)

Module merge_codebase_context.

(** [c.lower()] where the result can be an ASCII letter. *)
Definition lower_char (c : char) : char :=
  if (65 <=? c) && (c <=? 90) then c + 32
  else if c =? 8490 then 107
  else c.

Definition lower (s : str) : str := lower_char <$> s.

(** Position of the last [.] of [s], counted from [i]. *)
Fixpoint rfind_dot (s : str) (i : nat) : option nat :=
  match s with
  | [] => None
  | c :: s' =>
      match rfind_dot s' (S i) with
      | Some j => Some j
      | None => if c =? 46 then Some i else None
      end
  end.

(** [os.path.splitext(name)[1]] for a name without separators: the
    text from the last dot on, unless only dots come before it. *)
Definition splitext_ext (name : str) : str :=
  match rfind_dot name 0 with
  | Some i =>
      if forallb (fun c => c =? 46) (take i name) then [] else drop i name
  | None => []
  end.

Definition mem (x : str) (l : list str) : bool := existsb (str_eqb x) l.

Definition BINARY_EXTENSIONS : list str :=
  lit <$> [".png"; ".jpg"; ".jpeg"; ".gif"; ".bmp"; ".ico"; ".svg"; ".webp";
           ".mp4"; ".mp3"; ".wav"; ".pdf"; ".zip"; ".tar"; ".gz"; ".7z"; ".rar";
           ".pyc"; ".exe"; ".dll"; ".so"; ".dylib"; ".class"; ".jar"; ".bin";
           ".eot"; ".woff"; ".woff2"; ".ttf"; ".lock"]%string.

Definition is_binary_file (filename : str) : bool :=
  mem (lower (splitext_ext filename)) BINARY_EXTENSIONS.

Definition get_comment_prefix (filename : str) : str :=
  let ext := lower (splitext_ext filename) in
  if mem ext (lit <$> [".py"; ".sh"; ".yaml"; ".yml"; ".conf"; ".ini"; ".rb"; ".pl";
                       ".dockerfile"; "makefile"]%string)
  then lit "# " else lit "// ".

Definition IGNORE_DIRS : list str :=
  lit <$> [".git"; ".idea"; ".vscode"; "__pycache__"; "node_modules";
           "dist"; "build"; "venv"; "env"; ".DS_Store"; "target"; "out"]%string.

Definition IGNORE_FILES (output_file : str) : list str :=
  (lit <$> [".DS_Store"; "package-lock.json"; "yarn.lock"; "pnpm-lock.yaml"]%string)
    ++ [output_file] ++ (lit <$> ["LICENSE"; ".gitignore"]%string).

(** A directory as [os.walk] lists it: its files, then its
    sub-directories.  A file is its name and what reading it as UTF-8
    text gives; [None] when the read raises. *)
Inductive dir :=
| Dir (files : list (str * option str)) (subdirs : list (str * dir)).

(** [os.path.relpath(os.path.join(root, file), source_path)] *)
Definition rel_path (root : list str) (file : str) : str :=
  join (lit "/") (root ++ [file]).

(** The body of [for file in files], on the text written so far and
    the count. *)
Definition process_file (output_file : str) (root : list str)
    (out : str * nat) (f : str * option str) : str * nat :=
  let file := f.1 in
  if mem file (IGNORE_FILES output_file) || is_binary_file file then out
  else
    let prefix := get_comment_prefix file in
    match f.2 with
    | None => out
    | Some content =>
        if bool_decide (strip content = []) then out
        else
          (out.1 ++ (prefix ++ rel_path root file ++ [10]) ++ content ++ [10; 10],
           S out.2)
    end.

(** The loop over [os.walk(source_path)], top-down: the files of a
    directory, then each sub-directory that is not pruned. *)
Fixpoint walk (output_file : str) (root : list str) (d : dir)
    (out : str * nat) : str * nat :=
  match d with
  | Dir files subdirs =>
      let out := foldl (process_file output_file root) out files in
      (fix walk_dirs (dirs : list (str * dir)) (out : str * nat) : str * nat :=
         match dirs with
         | [] => out
         | (name, sub) :: dirs' =>
             if mem name IGNORE_DIRS then walk_dirs dirs' out
             else walk_dirs dirs' (walk output_file (root ++ [name]) sub out)
         end) subdirs out
  end.

(** [process_path(source_path, output_file)]: the text of the output
    file and [total_files]. *)
Definition process_path (source_path : dir) (output_file : str) : str * nat :=
  walk output_file [] source_path ([], 0%nat).

(** *** The command line *)

(** How [git clone] ends: well, with [subprocess.CalledProcessError],
    or with another exception (there is no [git] to run). *)
Inductive git_result :=
| Cloned
| CalledProcessError
| OtherError.

(** How [main] ends: after [process_path] returned its count, after
    [clone_repo] returned [None], with the message that the path does
    not exist, or with an exception. *)
Inductive outcome :=
| Merged (count : nat)
| CloneFailed
| NotFound
| Raised.

Definition is_url (source : str) : bool :=
  startswith (lit "http://") source || startswith (lit "https://") source.

Section CommandLine.
(** The directory [tempfile.mkdtemp()] creates next to the paths that
    exist, how [git clone url dir] ends, and the call
    [process_path(source, output)] on the tree under [source]: its
    count, [None] when it raises.  The paths that exist are followed
    but for the output file, which [process_path] creates. *)
Variable mkdtemp : gset str → str.
Variable git_clone : str → str → git_result.
Variable run_process_path : str → str → option nat.

(** [clone_repo(url)] on the paths that exist: what it returns
    ([None] when it raises) and the paths that exist afterwards. *)
Definition clone_repo (url : str) (paths : gset str)
    : option (option str) * gset str :=
  let temp_dir := mkdtemp paths in
  let paths := {[temp_dir]} ∪ paths in
  match git_clone url temp_dir with
  | Cloned => (Some (Some temp_dir), paths)
  | CalledProcessError => (Some None, paths ∖ {[temp_dir]})    (* [shutil.rmtree(temp_dir)] *)
  | OtherError => (None, paths)
  end.

(** [main] for the arguments [source] and [output]; [shutil.rmtree]
    removes the directory it is given. *)
Definition main (source output : str) (paths : gset str) : outcome * gset str :=
  let cloned :=
    if is_url source then
      match clone_repo source paths with
      | (Some (Some temp_dir), paths) =>
          if bool_decide (temp_dir = []) then inl (CloneFailed, paths)
          else inr (temp_dir, true, paths)
      | (Some None, paths) => inl (CloneFailed, paths)
      | (None, paths) => inl (Raised, paths)
      end
    else inr (source, false, paths) in
  match cloned with
  | inl ended => ended
  | inr (source, is_temp, paths) =>
      if bool_decide (source ∈ paths) then
        let result :=
          match run_process_path source output with
          | Some count => Merged count
          | None => Raised
          end in
        (* [finally] *)
        if is_temp && bool_decide (source ∈ paths)
        then (result, paths ∖ {[source]})
        else (result, paths)
      else (NotFound, paths)
  end.
End CommandLine.

End merge_codebase_context.

(** ** The vocabulary of the specification

    Definitions that follow the words of the specification; the facts
    below compare them with the code above. *)

(** "Retry the heuristics in order, then give up": the first strategy
    that yields a value decides, [default] if none does. *)
Fixpoint first_success (strategies : list (str → option json)) (s : str)
    (default : json) : json :=
  match strategies with
  | [] => default
  | strategy :: others =>
      match strategy s with
      | Some v => v
      | None => first_success others s default
      end
  end.


(** Markdown-code-fence extraction: decode what the pattern captures. *)
Definition fence_parse (pattern : regex) (s : str) : option json :=
  m ← re_search pattern s; json_loads (group1 m).



(** Opening minus closing braces. *)
Fixpoint depth (s : str) : Z :=
  match s with
  | [] => 0%Z
  | c :: s' =>
      ((if (c =? 123)%N then 1 else if (c =? 125)%N then -1 else 0) + depth s')%Z
  end.

(** The decision of a round: extracted from the content, or from the
    reasoning trace when the content gives nothing usable. *)
Definition decision_of (result : str * str) : json :=
  let decision := thinking_ReAct.extract_json_from_text result.1 in
  if truthy decision then decision
  else thinking_ReAct.extract_json_from_text result.2.

Section AgentVocabulary.
Import thinking_ReAct.
Variable call_llm_step : nat → list message → str * str.
Variable tools_search : json → str.
Variable tools_visit : json → str.
Variable json_dumps : json → str.
Variable format : json → str.

(** The assistant message that records a decision. *)
Definition assistant_message (decision : json) : message :=
  Message (lit "assistant") (json_dumps decision).

(** The user message that carries an observation back. *)
Definition observation_message (action : json) (observation : str) : message :=
  Message (lit "user")
    (lit "Observation from " ++ format action ++ lit ":" ++ [10] ++ observation).

(** The state after a round that appended [new] messages and made the
    tool calls [tools] after its LLM call. *)
Definition after_round (st : state) (new : list message) (tools : list event) : state :=
  State (messages st ++ new) (S (step st))
    (trace st ++ [LLMCall (messages st)] ++ tools).

(** "The loop dispatches on the decision's action field", for the
    decision [JObj d] of the round that starts in [st]. *)
Definition dispatches (st : state) (d : list (str * json)) : Prop :=
  let action := dict_get (lit "action") (JStr []) d in
  let action_input := dict_get (lit "action_input") (JStr []) d in
  let r := round call_llm_step tools_search tools_visit json_dumps format st in
  (action = JStr (lit "search") →
     r = Next (after_round st
                 [assistant_message (JObj d);
                  observation_message action (tools_search action_input)]
                 [SearchCall action_input]))
  ∧ (action = JStr (lit "visit") →
     r = Next (after_round st
                 [assistant_message (JObj d);
                  observation_message action (tools_visit action_input)]
                 [VisitCall action_input]))
  ∧ (action = JStr (lit "answer") →
     r = Exit (Answer action_input) (after_round st [] []))
  ∧ (action ≠ JStr (lit "search") → action ≠ JStr (lit "visit") →
     action ≠ JStr (lit "answer") →
     r = Next (after_round st
                 [assistant_message (JObj d);
                  observation_message action (lit "Unknown action: " ++ format action)]
                 [])).

(** "Exactly two messages are appended, the decision and then the
    observation", with the earlier history untouched. *)
Definition appends_exchange (st : state) (d : list (str * json)) : Prop :=
  ∃ st' observation,
    round call_llm_step tools_search tools_visit json_dumps format st = Next st'
    ∧ messages st' = messages st
        ++ [assistant_message (JObj d);
            observation_message (dict_get (lit "action") (JStr []) d) observation].

(** The states in which a run of the loop starts a round. *)
Inductive reachable (user_query : str) : state → Prop :=
| reachable_initial : reachable user_query (initial_state user_query)
| reachable_next st st' :
    reachable user_query st → (step st < max_steps)%nat →
    round call_llm_step tools_search tools_visit json_dumps format st = Next st' →
    reachable user_query st'.

Definition is_llm_call (e : event) : bool :=
  match e with LLMCall _ => true | _ => false end.

(** The number of LLM calls in a trace. *)
Definition llm_calls (tr : list event) : nat := length (filter is_llm_call tr).
End AgentVocabulary.








(** [p in s]: [p] occurs in [s]. *)
Fixpoint contains (p s : str) : bool :=
  startswith p s
  || match s with
     | [] => false
     | _ :: s' => contains p s'
     end.

(** A JSON text wrapped in a markdown code fence: the opening fence,
    with or without the [json] tag, whitespace, the text, whitespace,
    the closing fence. *)
Definition fenced (tag : bool) (w1 t w2 : str) : str :=
  fence ++ (if tag then lit "json" else []) ++ w1 ++ t ++ w2 ++ fence.

(** [t] is a serialization of the object [J]: it decodes to [J] and
    runs from the opening to the closing brace. *)
Definition serializes (t : str) (J : json) : Prop :=
  json_loads t = Some J ∧ head t = Some 123 ∧ last t = Some 125.

Definition whitespace (w : str) : Prop := Forall (fun c => isspace c = true) w.

Definition no_braces (s : str) : Prop := Forall (fun c => c ≠ 123 ∧ c ≠ 125) s.

(** The end of both fence patterns: whitespace, then the closing fence. *)
Abbreviation closing := (RSeq (RStar isspace) (RLit fence)).

(** ** Notions used by the further facts *)

(** A value the scanner can produce on its own: no array, no object. *)
Definition scalar (v : json) : Prop :=
  match v with
  | JArr _ | JObj _ => False
  | _ => True
  end.

Definition scalar_token (t : token) : Prop :=
  match t with
  | TVal v => scalar v
  | _ => True
  end.

Definition holds_scalar (st : lstate) : Prop :=
  match st with
  | LLit _ v => scalar v
  | _ => True
  end.

(** The scanner emits an opening brace only for the character [{],
    and no value but a scalar. *)
Definition tokens_of (c : char) (toks : list token) : Prop :=
  Forall (fun t => scalar_token t ∧ (t = TLBrace → c = 123)) toks.

(** The sizes a state of the agent may have after the rounds it has
    counted, and the histories the model has been sent so far: each
    starts with the two messages of the initial state and is still
    the beginning of the present history. *)
Definition within_bounds (user_query : str) (st : thinking_ReAct.state) : Prop :=
  (length (thinking_ReAct.messages st) ≤ 2 + 2 * thinking_ReAct.step st)%nat
  ∧ (length (thinking_ReAct.trace st) ≤ 2 * thinking_ReAct.step st)%nat
  ∧ thinking_ReAct.messages (thinking_ReAct.initial_state user_query)
      `prefix_of` thinking_ReAct.messages st
  ∧ Forall (fun e =>
      match e with
      | thinking_ReAct.LLMCall history =>
          thinking_ReAct.messages (thinking_ReAct.initial_state user_query)
            `prefix_of` history
          ∧ history `prefix_of` thinking_ReAct.messages st
      | _ => True
      end) (thinking_ReAct.trace st).

(** The text a delta holds under [k]: nothing when the key is missing
    or its value is [null]. *)
Definition text_field (k : str) (d : list (str * json)) : str :=
  match dict_lookup k d with
  | Some (JStr s) => s
  | _ => []
  end.

(** The value under [k], if any, is a string or false. *)
Definition textual (k : str) (d : list (str * json)) : Prop :=
  match dict_lookup k d with
  | Some (JStr _) | None => True
  | Some v => truthy v = false
  end.

(** The line carries the delta [d] of a well-formed chunk. *)
Definition carries (line : str) (d : list (str * json)) : Prop :=
  line ≠ []
  ∧ strip (thinking_ReAct.payload line) ≠ lit "[DONE]"
  ∧ json_loads (thinking_ReAct.payload line) ≫= thinking_ReAct.chunk_delta
    = Some (JObj d)
  ∧ textual (lit "content") d
  ∧ textual (lit "reasoning_content") d.

(** The text of a chunk, if it has any. *)
Definition chunk_text (c : pdf2md.chunk) : str :=
  match c with
  | pdf2md.Delta (Some content) => content
  | _ => []
  end.

(** Does the stream break at this chunk? *)
Definition is_stream_error (c : pdf2md.chunk) : bool :=
  match c with
  | pdf2md.StreamError => true
  | pdf2md.Delta _ => false
  end.

(** Does the stream of the analysis break at this chunk? *)
Definition is_broken (c : research_exa.chunk) : bool :=
  match c with
  | research_exa.Broken _ => true
  | research_exa.Chunk _ _ => false
  end.

(** The characters of a text that are no whitespace, in order. *)
Definition visible (s : str) : str := filter (fun c => isspace c = false) s.

(** * Facts *)

(** ** The definitions at work *)

Example json_loads_object :
  json_loads (jlit "{'a': [1, -20, true, null], 'b': 'xA\n'}")
  = Some (JObj [(lit "a", JArr [JInt 1; JInt (-20); JBool true; JNull]);
                (lit "b", JStr [120; 65; 10])]).
Proof. vm_compute. reflexivity. Qed.

Example json_loads_duplicate_key :
  json_loads (jlit "{'a': 1, 'b': 2, 'a': 3}")
  = Some (JObj [(lit "a", JInt 3); (lit "b", JInt 2)]).
Proof. vm_compute. reflexivity. Qed.

Example json_loads_float :
  json_loads (lit " -12.50e+3 ") = Some (JFloat (lit "-12.50e+3")).
Proof. vm_compute. reflexivity. Qed.

Example json_loads_trailing_comma : json_loads (lit "[1, 2,]") = None.
Proof. vm_compute. reflexivity. Qed.

Example json_loads_vertical_tab : json_loads (11 :: lit "1") = None.
Proof. vm_compute. reflexivity. Qed.

Example search_lazy_fence :
  re_search research_exa.code_block_pattern (lit "a ```json x ``` b ``` c")
  = Some (Some (lit "x")).
Proof. vm_compute. reflexivity. Qed.

Example search_greedy_braces :
  re_search research_exa.json_obj_pattern (lit "a {b} c} d") = Some (Some (lit "{b} c}")).
Proof. vm_compute. reflexivity. Qed.

Example response_array_in_prose :
  research_exa.extract_json_from_response (lit "x [1]") JNull = JArr [JInt 1].
Proof. vm_compute. reflexivity. Qed.

Example text_array_in_prose :
  thinking_ReAct.extract_json_from_text (lit "x [1]") = JNull.
Proof. vm_compute. reflexivity. Qed.

Example text_two_objects :
  thinking_ReAct.extract_json_from_text (lit "{} {}") = JObj []
  ∧ research_exa.extract_json_from_response (lit "{} {}") JNull = JNull.
Proof. vm_compute. done. Qed.

(** A run that searches once and then answers. *)
Example run_search_then_answer :
  thinking_ReAct.run_gemini_simulation
    (fun n _ =>
       match n with
       | O => (jlit "{'action': 'search', 'action_input': 'rocq'}", [])
       | _ => ([], jlit "so: {'action': 'answer', 'action_input': 'done'}")
       end)
    (fun _ => lit "found") (fun _ => lit "page") (fun _ => lit "{}") (fun _ => lit "search")
    (lit "q")
  = Some (thinking_ReAct.Answer (JStr (lit "done")),
          thinking_ReAct.State
            [thinking_ReAct.Message (lit "system") thinking_ReAct.system_prompt;
             thinking_ReAct.Message (lit "user") (lit "q");
             thinking_ReAct.Message (lit "assistant") (lit "{}");
             thinking_ReAct.Message (lit "user")
               (lit "Observation from search:" ++ [10] ++ lit "found")]
            2
            [thinking_ReAct.LLMCall
               [thinking_ReAct.Message (lit "system") thinking_ReAct.system_prompt;
                thinking_ReAct.Message (lit "user") (lit "q")];
             thinking_ReAct.SearchCall (JStr (lit "rocq"));
             thinking_ReAct.LLMCall
               [thinking_ReAct.Message (lit "system") thinking_ReAct.system_prompt;
                thinking_ReAct.Message (lit "user") (lit "q");
                thinking_ReAct.Message (lit "assistant") (lit "{}");
                thinking_ReAct.Message (lit "user")
                  (lit "Observation from search:" ++ [10] ++ lit "found")]]).
Proof. vm_compute. reflexivity. Qed.

Example binary_extension_any_case :
  merge_codebase_context.is_binary_file (lit "Logo.PNG") = true
  ∧ merge_codebase_context.is_binary_file (lit ".lock") = false
  ∧ merge_codebase_context.is_binary_file (lit "notes.txt") = false.
Proof. vm_compute. done. Qed.

(** ['makefile'] sits among the extensions and never equals one. *)
Example comment_prefixes :
  merge_codebase_context.get_comment_prefix (lit "run.PY") = lit "# "
  ∧ merge_codebase_context.get_comment_prefix (lit "Makefile") = lit "// "
  ∧ merge_codebase_context.get_comment_prefix (lit "main.c") = lit "// ".
Proof. vm_compute. done. Qed.

Example process_path_small_tree :
  merge_codebase_context.process_path
    (merge_codebase_context.Dir
       [(lit "a.py", Some (lit "x")); (lit "b.png", Some (lit "y"));
        (lit "c.txt", None); (lit "d.txt", Some (lit "  "))]
       [(lit "build", merge_codebase_context.Dir [(lit "e.c", Some (lit "z"))] []);
        (lit "src", merge_codebase_context.Dir [(lit "f.c", Some (lit "w"))] [])])
    (lit "context.txt")
  = (lit "# a.py" ++ [10] ++ lit "x" ++ [10; 10]
       ++ lit "// src/f.c" ++ [10] ++ lit "w" ++ [10; 10], 2%nat).
Proof. vm_compute. reflexivity. Qed.

(** ** Whitespace around a JSON text *)

Lemma isspace_cases c :
  isspace c = true →
  (9 ≤ c ≤ 13 ∨ 28 ≤ c ≤ 32 ∨ c = 133 ∨ c = 160 ∨ c = 5760 ∨ 8192 ≤ c ≤ 8202
   ∨ c = 8232 ∨ c = 8233 ∨ c = 8239 ∨ c = 8287 ∨ c = 12288)%N.
Proof.
  unfold isspace.
  rewrite !orb_true_iff, !andb_true_iff, !N.leb_le, !N.eqb_eq. lia.
Qed.

Ltac bool_to_prop :=
  repeat match goal with
  | H : (_ =? _) = true |- _ => apply N.eqb_eq in H
  | H : (_ =? _) = false |- _ => apply N.eqb_neq in H
  | H : (_ <? _) = true |- _ => apply N.ltb_lt in H
  | H : (_ <? _) = false |- _ => apply N.ltb_ge in H
  | H : (_ <=? _) = true |- _ => apply N.leb_le in H
  | H : (_ <=? _) = false |- _ => apply N.leb_gt in H
  | H : _ && _ = true |- _ => apply andb_true_iff in H; destruct H
  | H : _ || _ = false |- _ => apply orb_false_iff in H; destruct H
  end.

Lemma idle_step_space c st tk :
  isspace c = true → idle_step c = Some (st, tk) → st = LIdle ∧ tk = [].
Proof.
  intros Hc%isspace_cases. unfold idle_step, is_json_ws, is_digit.
  intros H. repeat case_match; simplify_eq; auto; bool_to_prop; lia.
Qed.

Lemma emit_then_space v c st tk :
  isspace c = true → emit_then v c = Some (st, tk) → st = LIdle ∧ tk = [TVal v].
Proof.
  intros Hc. unfold emit_then.
  destruct (idle_step c) as [[st0 tk0]|] eqn:E; [|done].
  destruct (idle_step_space _ _ _ Hc E) as [-> ->]. by intros [= <- <-].
Qed.

Lemma str_step_space acc c st tk :
  isspace c = true → str_step acc c = Some (st, tk) → finish st = None.
Proof.
  intros Hc%isspace_cases. unfold str_step.
  intros H. repeat case_match; simplify_eq; auto; bool_to_prop; lia.
Qed.

Lemma esc_step_space acc c : isspace c = true → esc_step acc c = None.
Proof.
  intros Hc%isspace_cases. unfold esc_step.
  repeat case_match; simplify_eq; auto; bool_to_prop; lia.
Qed.

Lemma hex_val_space c : isspace c = true → hex_val c = None.
Proof.
  intros Hc%isspace_cases. unfold hex_val.
  repeat case_match; simplify_eq; auto; bool_to_prop; lia.
Qed.

(** The literal states hold the rest of a keyword, which has no
    whitespace in it. *)
Definition state_ok (st : lstate) : Prop :=
  match st with
  | LLit rest _ => Forall (fun x => isspace x = false) rest
  | _ => True
  end.

Lemma idle_step_ok c st tk : idle_step c = Some (st, tk) → state_ok st.
Proof.
  unfold idle_step. intros H.
  repeat case_match; simplify_eq; simpl; auto; repeat constructor.
Qed.

Lemma step_ok st c st' tk : state_ok st → step st c = Some (st', tk) → state_ok st'.
Proof.
  intros Hok Hstep. destruct st; simpl in Hstep;
    unfold emit_then, str_step, esc_step in Hstep;
    repeat case_match; simplify_eq; simpl; eauto using idle_step_ok;
    try (repeat constructor; done).
  simpl in Hok. by inversion Hok.
Qed.

(** A whitespace character never completes a token: if the scanner
    accepts it and can stop afterwards, it could have stopped before. *)
Lemma step_space st c st' tk rest :
  state_ok st →
  isspace c = true → step st c = Some (st', tk) → finish st' = Some rest →
  finish st = Some (tk ++ rest).
Proof.
  intros Hok Hc Hstep Hfin.
  pose proof (isspace_cases _ Hc) as Hc'.
  destruct st; simpl in Hstep; unfold is_digit in Hstep.
  - destruct (idle_step_space _ _ _ Hc Hstep) as [-> ->]. done.
  - by rewrite (str_step_space _ _ _ _ Hc Hstep) in Hfin.
  - by rewrite esc_step_space in Hstep.
  - by rewrite hex_val_space in Hstep.
  - destruct (c =? 92); simplify_eq; try done.
    by rewrite (str_step_space _ _ _ _ Hc Hstep) in Hfin.
  - destruct (c =? 117); simplify_eq; try done.
    by rewrite esc_step_space in Hstep.
  - repeat case_match; simplify_eq; bool_to_prop; lia.
  - repeat case_match; simplify_eq; bool_to_prop; try lia.
    destruct (emit_then_space _ _ _ _ Hc Hstep) as [-> ->]. by simplify_eq/=.
  - repeat case_match; simplify_eq; bool_to_prop; try lia.
    destruct (emit_then_space _ _ _ _ Hc Hstep) as [-> ->]. by simplify_eq/=.
  - repeat case_match; simplify_eq; bool_to_prop; lia.
  - repeat case_match; simplify_eq; bool_to_prop; try lia.
    destruct (emit_then_space _ _ _ _ Hc Hstep) as [-> ->]. by simplify_eq/=.
  - repeat case_match; simplify_eq; bool_to_prop; lia.
  - repeat case_match; simplify_eq; bool_to_prop; lia.
  - repeat case_match; simplify_eq; bool_to_prop; try lia.
    destruct (emit_then_space _ _ _ _ Hc Hstep) as [-> ->]. by simplify_eq/=.
  - simpl in Hok.
    repeat case_match; simplify_eq; simpl in Hfin; try done;
      bool_to_prop; subst; inversion Hok; congruence.
Qed.

Lemma lex_ws_tail w st toks :
  state_ok st → Forall (fun c => isspace c = true) w →
  lex st w = Some toks → finish st = Some toks.
Proof.
  revert st toks. induction w as [|c w IH]; intros st toks Hok Hw; [done|].
  inversion Hw as [|? ? Hc Hw']; subst. simpl.
  destruct (step st c) as [[st' tk]|] eqn:Hstep; [|done].
  destruct (lex st' w) as [rest|] eqn:Hlex; [|done].
  intros [= <-]. eapply step_space; eauto using step_ok.
Qed.

Lemma lex_app_ws s w st toks :
  state_ok st → Forall (fun c => isspace c = true) w →
  lex st (s ++ w) = Some toks → lex st s = Some toks.
Proof.
  revert st toks. induction s as [|c s IH]; intros st toks Hok Hw; simpl.
  - by apply lex_ws_tail.
  - destruct (step st c) as [[st' tk]|] eqn:Hstep; [|done].
    destruct (lex st' (s ++ w)) as [rest|] eqn:Hlex; [|done].
    intros [= <-]. by rewrite (IH st' rest (step_ok _ _ _ _ Hok Hstep) Hw Hlex).
Qed.

Lemma lex_lstrip s toks : lex LIdle s = Some toks → lex LIdle (lstrip s) = Some toks.
Proof.
  induction s as [|c s IH]; [done|]. intros H. simpl.
  destruct (isspace c) eqn:Hc; [|done].
  simpl in H. destruct (idle_step c) as [[st tk]|] eqn:Hstep; [|done].
  destruct (idle_step_space _ _ _ Hc Hstep) as [-> ->].
  destruct (lex LIdle s) eqn:Hlex; [|done]. simplify_eq/=. by apply IH.
Qed.

Lemma lstrip_spec s :
  ∃ w, s = w ++ lstrip s ∧ Forall (fun c => isspace c = true) w.
Proof.
  induction s as [|c s (w & Hs & Hw)]; [by exists []|]. simpl.
  destruct (isspace c) eqn:Hc.
  - exists (c :: w). split; [by rewrite Hs at 1|by constructor].
  - by exists [].
Qed.

Lemma rstrip_spec s :
  ∃ w, s = rstrip s ++ w ∧ Forall (fun c => isspace c = true) w.
Proof.
  destruct (lstrip_spec (reverse s)) as (w & Hs & Hw).
  exists (reverse w). split; [|by apply Forall_reverse].
  unfold rstrip. by rewrite <- reverse_app, <- Hs, reverse_involutive.
Qed.

Lemma lex_strip s toks : lex LIdle s = Some toks → lex LIdle (strip s) = Some toks.
Proof.
  intros H%lex_lstrip. unfold strip.
  destruct (rstrip_spec (lstrip s)) as (w & Hs & Hw).
  rewrite Hs in H. by apply lex_app_ws in H.
Qed.

(** [json.loads] does not see the whitespace [strip] removes. *)
Lemma json_loads_strip s v : json_loads s = Some v → json_loads (strip s) = Some v.
Proof.
  unfold json_loads. destruct (lex LIdle s) as [ts|] eqn:Hlex; [|done].
  by rewrite (lex_strip _ _ Hlex).
Qed.

(** ** The decoder never runs out of fuel *)

Lemma parse_S_value f ts :
  parse_value (S f) ts =
    match ts with
    | TVal v :: r => Some (v, r)
    | TLBrack :: TRBrack :: r => Some (JArr [], r)
    | TLBrack :: r => parse_elems f r []
    | TLBrace :: TRBrace :: r => Some (JObj [], r)
    | TLBrace :: r => parse_members f r []
    | _ => None
    end.
Proof. reflexivity. Qed.

Lemma parse_S_elems f ts acc :
  parse_elems (S f) ts acc =
    match parse_value f ts with
    | Some (v, TComma :: r) => parse_elems f r (acc ++ [v])
    | Some (v, TRBrack :: r) => Some (JArr (acc ++ [v]), r)
    | _ => None
    end.
Proof. reflexivity. Qed.

Lemma parse_S_members f ts acc :
  parse_members (S f) ts acc =
    match ts with
    | TVal (JStr k) :: TColon :: r =>
        match parse_value f r with
        | Some (v, TComma :: r') => parse_members f r' (dict_set k v acc)
        | Some (v, TRBrace :: r') => Some (JObj (dict_set k v acc), r')
        | _ => None
        end
    | _ => None
    end.
Proof. reflexivity. Qed.

(** Every parser consumes at least one token. *)
Lemma parse_consumes f :
  (∀ ts v r, parse_value f ts = Some (v, r) → (length r < length ts)%nat)
  ∧ (∀ ts acc v r, parse_elems f ts acc = Some (v, r) → (length r < length ts)%nat)
  ∧ (∀ ts acc v r, parse_members f ts acc = Some (v, r) → (length r < length ts)%nat).
Proof.
  induction f as [|f (IHv & IHe & IHm)]; [by repeat split|].
  repeat split.
  - intros ts v r. rewrite parse_S_value. intros H.
    repeat case_match; simplify_eq; simpl; try lia;
      match goal with
      | H : parse_elems _ _ _ = Some _ |- _ => apply IHe in H; simpl in H; lia
      | H : parse_members _ _ _ = Some _ |- _ => apply IHm in H; simpl in H; lia
      end.
  - intros ts acc v r. rewrite parse_S_elems. intros H.
    destruct (parse_value f ts) as [[v' r']|] eqn:Hv; [|done].
    apply IHv in Hv.
    destruct r' as [|[] r']; try done.
    + simplify_eq. simpl in Hv. lia.
    + apply IHe in H. simpl in Hv. lia.
  - intros ts acc v r. rewrite parse_S_members. intros H.
    repeat case_match; simplify_eq;
      match goal with
      | Hv : parse_value _ _ = Some _ |- _ => apply IHv in Hv; simpl in Hv
      end; simpl; try lia.
    apply IHm in H. lia.
Qed.

(** With fuel enough for the tokens at hand, more fuel changes nothing. *)
Lemma parse_fuel n :
  (∀ ts f1 f2, (length ts ≤ n)%nat →
     (2 * length ts + 1 ≤ f1)%nat → (2 * length ts + 1 ≤ f2)%nat →
     parse_value f1 ts = parse_value f2 ts)
  ∧ (∀ ts acc f1 f2, (length ts ≤ n)%nat →
       (2 * length ts + 2 ≤ f1)%nat → (2 * length ts + 2 ≤ f2)%nat →
       parse_elems f1 ts acc = parse_elems f2 ts acc)
  ∧ (∀ ts acc f1 f2, (length ts ≤ n)%nat →
       (2 * length ts + 2 ≤ f1)%nat → (2 * length ts + 2 ≤ f2)%nat →
       parse_members f1 ts acc = parse_members f2 ts acc).
Proof.
  induction n as [|n (IHv & IHe & IHm)].
  - repeat split; intros ts; intros; destruct ts; simpl in *; try lia;
      destruct f1 as [|[|f1]], f2 as [|[|f2]]; try lia; reflexivity.
  - assert (Hv : ∀ ts f1 f2, (length ts ≤ S n)%nat →
       (2 * length ts + 1 ≤ f1)%nat → (2 * length ts + 1 ≤ f2)%nat →
       parse_value f1 ts = parse_value f2 ts).
    { intros ts f1 f2 Hn H1 H2.
      destruct f1 as [|f1], f2 as [|f2]; try lia.
      rewrite !parse_S_value.
      destruct ts as [|t r]; [done|]. simpl in Hn, H1, H2.
      destruct t; try done.
      - destruct r as [|t' r']; [apply IHm; simpl; lia|].
        destruct t'; try done; apply IHm; simpl in *; lia.
      - destruct r as [|t' r']; [apply IHe; simpl; lia|].
        destruct t'; try done; apply IHe; simpl in *; lia. }
    split; [exact Hv|]. split.
    + intros ts acc f1 f2 Hn H1 H2.
      destruct f1 as [|f1], f2 as [|f2]; try lia.
      rewrite !parse_S_elems.
      rewrite (Hv ts f1 f2) by lia.
      destruct (parse_value f2 ts) as [[v r]|] eqn:E; [|done].
      apply (proj1 (parse_consumes f2)) in E.
      destruct r as [|[] r]; try done.
      simpl in E. apply IHe; lia.
    + intros ts acc f1 f2 Hn H1 H2.
      destruct f1 as [|f1], f2 as [|f2]; try lia.
      rewrite !parse_S_members.
      destruct ts as [|[| | | | | |[]] [|[] r]]; try done.
      simpl in Hn, H1, H2.
      rewrite (IHv r f1 f2) by lia.
      destruct (parse_value f2 r) as [[v r']|] eqn:E; [|done].
      apply (proj1 (parse_consumes f2)) in E.
      destruct r' as [|[] r']; try done.
      simpl in E. apply IHm; lia.
Qed.

(** [json_loads] gives the parser all the fuel it can use. *)
Lemma json_loads_fuel (ts : list token) (fuel : nat) :
  (2 * length ts + 2 ≤ fuel)%nat →
  parse_value fuel ts = parse_value (2 * length ts + 2) ts.
Proof.
  intros H. apply (proj1 (parse_fuel (length ts))); lia.
Qed.

(** ** The two extraction functions *)

Lemma json_loads_empty : json_loads [] = None.
Proof. reflexivity. Qed.

Lemma extract_json_from_response_direct s v default :
  json_loads s = Some v → research_exa.extract_json_from_response s default = v.
Proof.
  intros H. unfold research_exa.extract_json_from_response.
  rewrite bool_decide_eq_false_2 by (intros ->; done).
  by rewrite (json_loads_strip _ _ H).
Qed.

Lemma extract_json_from_text_direct s v :
  json_loads s = Some v → thinking_ReAct.extract_json_from_text s = v.
Proof.
  intros H. unfold thinking_ReAct.extract_json_from_text.
  rewrite bool_decide_eq_false_2 by (intros ->; done).
  by rewrite H.
Qed.

(** C1, as stated, fails: on [x [1]] the function of research_exa.py
    finds the array between the square brackets, the one of
    thinking_ReAct.py looks for braces only and gives [None]. *)
Lemma extract_functions_differ :
  research_exa.extract_json_from_response (lit "x [1]") JNull
  ≠ thinking_ReAct.extract_json_from_text (lit "x [1]").
Proof. vm_compute. discriminate. Qed.

(** C1, amended: the two extraction functions return the same value on
    the empty string (both [None]) and on every input that [json.loads]
    decodes as it stands (both return the decoded value). *)
Theorem extract_functions_agree_on_direct (s : str) :
  s = [] ∨ is_Some (json_loads s) →
  research_exa.extract_json_from_response s JNull
  = thinking_ReAct.extract_json_from_text s.
Proof.
  intros [-> | [v Hv]]; [reflexivity|].
  by rewrite (extract_json_from_response_direct _ _ _ Hv),
             (extract_json_from_text_direct _ _ Hv).
Qed.

Lemma extract_functions_agree_on_direct_witness :
  research_exa.extract_json_from_response (jlit " {'a': [1, 2]} ") JNull
  = thinking_ReAct.extract_json_from_text (jlit " {'a': [1, 2]} ").
Proof.
  apply extract_functions_agree_on_direct.
  right. vm_compute. eexists. reflexivity.
Defined.

(** The brace count of thinking_ReAct.py stops at the first prefix in
    which the braces balance. *)
Lemma bracket_scan_spec (rest : str) (count : Z) (k n : nat) :
  thinking_ReAct.bracket_scan rest count k = Some n →
  (k ≤ n)%nat
  ∧ (count + depth (take (S (n - k)) rest) = 0)%Z
  ∧ ∀ m, (m < n - k)%nat → (count + depth (take (S m) rest) ≠ 0)%Z.
Proof.
  revert count k. induction rest as [|c rest IH]; intros count k; [done|].
  cbn [thinking_ReAct.bracket_scan take depth].
  remember (if (c =? 123)%N then 1%Z else if (c =? 125)%N then (-1)%Z else 0%Z)
    as delta eqn:Hdelta.
  assert ((if c =? 123 then (count + 1)%Z
           else if c =? 125 then (count - 1)%Z else count) = (count + delta)%Z) as ->.
  { rewrite Hdelta. destruct (c =? 123); [done|].
    destruct (c =? 125); [done|]. by rewrite Z.add_0_r. }
  clear Hdelta.
  destruct (count + delta =? 0)%Z eqn:E.
  - intros [= <-]. apply Z.eqb_eq in E. rewrite Nat.sub_diag, take_0.
    cbn [depth]. split; [lia|]. split; [lia|]. intros m Hm. lia.
  - intros H. apply Z.eqb_neq in E. destruct (IH _ _ H) as (Hk & Hz & Hm).
    split; [lia|].
    replace (n - k)%nat with (S (n - S k)) by lia. split; [lia|].
    intros [|m] Hlt.
    + rewrite take_0. cbn [depth]. lia.
    + specialize (Hm m ltac:(lia)). lia.
Qed.


(** When every strategy fails, the default comes back. *)
Lemma first_success_all_fail strategies s default :
  Forall (fun strategy => strategy s = None) strategies →
  first_success strategies s default = default.
Proof. induction 1 as [|f fs Hf _ IH]; simpl; [done|]. by rewrite Hf. Qed.

(** ** The agent loop *)

Section AgentFacts.
Import thinking_ReAct.
Variable call_llm_step : nat → list message → str * str.
Variable tools_search : json → str.
Variable tools_visit : json → str.
Variable json_dumps : json → str.
Variable format : json → str.

Local Abbreviation round := (round call_llm_step tools_search tools_visit json_dumps format).
Local Abbreviation loop := (loop call_llm_step tools_search tools_visit json_dumps format).
Local Abbreviation reply st := (call_llm_step (step st) (messages st)).

Lemma eq_str_true v s : eq_str v s = true ↔ v = JStr s.
Proof.
  destruct v; simpl; try (split; [done|congruence]).
  unfold str_eqb. rewrite bool_decide_eq_true. split; congruence.
Qed.

Lemma eq_str_false v s : eq_str v s = false ↔ v ≠ JStr s.
Proof. rewrite <- eq_str_true. by destruct (eq_str v s). Qed.

(** The round in terms of its decision. *)
Lemma round_unfold st :
  round st =
    let trace := trace st ++ [LLMCall (messages st)] in
    if bool_decide ((reply st).1 = []) && bool_decide ((reply st).2 = []) then
      Exit EmptyResponse (State (messages st) (S (step st)) trace)
    else if negb (truthy (decision_of (reply st))) then
      Next (State (messages st ++ [parse_error_message]) (S (step st)) trace)
    else
      match decision_of (reply st) with
      | JObj d =>
          let action := dict_get (lit "action") (JStr []) d in
          let action_input := dict_get (lit "action_input") (JStr []) d in
          if eq_str action (lit "search") then
            Next (State (messages st ++ [assistant_message json_dumps (JObj d)]
                           ++ [observation_message format action (tools_search action_input)])
                    (S (step st)) (trace ++ [SearchCall action_input]))
          else if eq_str action (lit "visit") then
            Next (State (messages st ++ [assistant_message json_dumps (JObj d)]
                           ++ [observation_message format action (tools_visit action_input)])
                    (S (step st)) (trace ++ [VisitCall action_input]))
          else if eq_str action (lit "answer") then
            Exit (Answer action_input) (State (messages st) (S (step st)) trace)
          else
            Next (State (messages st ++ [assistant_message json_dumps (JObj d)]
                           ++ [observation_message format action
                                 (lit "Unknown action: " ++ format action)])
                    (S (step st)) trace)
      | _ => Exit AttributeError (State (messages st) (S (step st)) trace)
      end.
Proof.
  unfold thinking_ReAct.round, decision_of.
  destruct (bool_decide _ && bool_decide _); [done|].
  destruct (truthy (extract_json_from_text (reply st).1)) eqn:Ht; simpl.
  - rewrite Ht. simpl.
    destruct (extract_json_from_text (reply st).1); try done.
    repeat case_match; by simplify_eq.
  - destruct (truthy (extract_json_from_text (reply st).2)); simpl; [|done].
    destruct (extract_json_from_text (reply st).2); try done.
    repeat case_match; by simplify_eq.
Qed.

Lemma extract_json_from_text_empty : extract_json_from_text [] = JNull.
Proof. reflexivity. Qed.

(** A decision can only come from a response that is not empty. *)
Lemma decision_needs_reply result :
  truthy (decision_of result) = true →
  bool_decide (result.1 = []) && bool_decide (result.2 = []) = false.
Proof.
  destruct result as [c r]. unfold decision_of. simpl.
  destruct c, r; simpl; try done.
Qed.

(** Every round makes one LLM call and counts one step. *)
Lemma round_counts st :
  ∀ st', (round st = Next st' ∨ ∃ e, round st = Exit e st') →
  step st' = S (step st)
  ∧ llm_calls (trace st') = S (llm_calls (trace st))
  ∧ messages st `prefix_of` messages st'.
Proof.
  intros st' H. rewrite round_unfold in H. simpl in H.
  assert (Hl : ∀ tools, Forall (fun e => is_llm_call e = false) tools →
            llm_calls ((trace st ++ [LLMCall (messages st)]) ++ tools)
            = S (llm_calls (trace st))).
  { intros tools Ht. unfold llm_calls. rewrite !filter_app, !length_app. simpl.
    assert (filter is_llm_call tools = []) as ->; [|simpl; lia].
    induction Ht as [|e l He _ IH]; [done|].
    rewrite filter_cons. by destruct (is_llm_call e). }
  assert (Hl0 := Hl [] ltac:(constructor)). rewrite app_nil_r in Hl0.
  repeat case_match; destruct H as [H | [e H]]; simplify_eq; simpl;
    (split; [done|]); (split; [|by apply prefix_app_r || done]);
    try done; apply Hl; by repeat constructor.
Qed.
(** The loop ends, whatever the model replies: with enough fuel for
    the steps that remain it reaches an exit, having made one LLM call
    per step counted and never more than [max_steps] in all. *)
Lemma loop_terminates fuel st :
  (max_steps - step st ≤ fuel)%nat →
  ∃ e st', loop fuel st = Some (e, st')
    ∧ (step st ≤ step st')%nat
    ∧ (step st' ≤ max_steps ∨ step st' = step st)%nat
    ∧ (llm_calls (trace st') = llm_calls (trace st) + (step st' - step st))%nat
    ∧ messages st `prefix_of` messages st'.
Proof.
  revert st. induction fuel as [|fuel IH]; intros st Hfuel.
  - exists MaxSteps, st. simpl.
    destruct (step st <? max_steps)%nat eqn:E; [apply Nat.ltb_lt in E; lia|].
    repeat split; auto with lia.
  - simpl. destruct (step st <? max_steps)%nat eqn:E.
    + apply Nat.ltb_lt in E.
      destruct (round st) as [st1|e st1] eqn:Hr.
      * destruct (round_counts st st1 (or_introl Hr)) as (Hs & Hc & Hp).
        destruct (IH st1) as (e & st' & Hl & H1 & H2 & H3 & H4); [lia|].
        exists e, st'. rewrite Hl. repeat split; try lia.
        by trans (messages st1).
      * destruct (round_counts st st1 (or_intror (ex_intro _ e Hr)))
          as (Hs & Hc & Hp).
        exists e, st1. repeat split; try lia. done.
    + exists MaxSteps, st. repeat split; auto with lia.
Qed.

(** A run of the agent always ends, after at most seven rounds, and it
    has made exactly one LLM call per round. *)
Lemma run_gemini_simulation_terminates user_query :
  ∃ e st',
    run_gemini_simulation call_llm_step tools_search tools_visit json_dumps format
      user_query = Some (e, st')
    ∧ (step st' ≤ 7)%nat
    ∧ llm_calls (trace st') = step st'.
Proof.
  destruct (loop_terminates max_steps (initial_state user_query))
    as (e & st' & Hl & H1 & H2 & H3 & _); [simpl; unfold max_steps; lia|].
  exists e, st'. split; [done|]. clear Hl. simpl in *. unfold max_steps in *. lia.
Qed.

(** A decision that is true but no dict ends the run in the
    [AttributeError] of [decision.get]. *)
Lemma round_non_object st :
  truthy (decision_of (reply st)) = true →
  (∀ d, decision_of (reply st) ≠ JObj d) →
  round st = Exit AttributeError (after_round st [] []).
Proof.
  intros Ht Hd. rewrite round_unfold. simpl.
  rewrite (decision_needs_reply _ Ht), Ht. simpl.
  unfold after_round. rewrite !app_nil_r.
  destruct (decision_of (reply st)); try done. by destruct (Hd members).
Qed.

Lemma loop_S fuel st :
  loop (S fuel) st =
    if (step st <? max_steps)%nat then
      match round st with
      | Next st' => loop fuel st'
      | Exit e st' => Some (e, st')
      end
    else Some (MaxSteps, st).
Proof. reflexivity. Qed.

(** A round without a usable decision only asks again. *)
Lemma round_no_decision st :
  (reply st).1 ≠ [] ∨ (reply st).2 ≠ [] →
  truthy (decision_of (reply st)) = false →
  round st = Next (after_round st [parse_error_message] []).
Proof.
  intros Hne Hf. rewrite round_unfold. cbv zeta. rewrite Hf. simpl negb.
  unfold after_round. rewrite app_nil_r.
  destruct Hne as [Hne|Hne].
  - by rewrite (bool_decide_eq_false_2 _ Hne).
  - rewrite (bool_decide_eq_false_2 _ Hne). by rewrite andb_false_r.
Qed.

(** The history only grows: every state a run reaches still starts
    with the system prompt and the user's query. *)
Lemma reachable_history user_query st :
  reachable call_llm_step tools_search tools_visit json_dumps format user_query st →
  ∃ rest, messages st
          = Message (lit "system") system_prompt
              :: Message (lit "user") user_query :: rest.
Proof.
  induction 1 as [|st st' _ (rest & IH) _ Hr]; [by exists []|].
  destruct (round_counts st st' (or_introl Hr)) as (_ & _ & [new Hp]).
  exists (rest ++ new). by rewrite Hp, IH.
Qed.
(** The ways out of a round: the three the code has, no others. *)
Lemma round_exit_cases st e st' :
  round st = Exit e st' →
  match e with
  | EmptyResponse => (reply st).1 = [] ∧ (reply st).2 = []
  | Answer v =>
      ∃ d, decision_of (reply st) = JObj d ∧ d ≠ []
           ∧ dict_get (lit "action") (JStr []) d = JStr (lit "answer")
           ∧ v = dict_get (lit "action_input") (JStr []) d
  | AttributeError =>
      truthy (decision_of (reply st)) = true ∧ ∀ d, decision_of (reply st) ≠ JObj d
  | MaxSteps => False
  end.
Proof.
  rewrite round_unfold. cbv zeta.
  destruct (bool_decide ((reply st).1 = []) && bool_decide ((reply st).2 = [])) eqn:He.
  { intros [= <- <-]. apply andb_true_iff in He as [H1 H2].
    by apply bool_decide_eq_true in H1, H2. }
  destruct (truthy (decision_of (reply st))) eqn:Ht; simpl negb; cbv iota; [|done].
  destruct (decision_of (reply st)) as [| | | | | |d] eqn:Hd;
    try (intros [= <- <-]; split; [done|intros ?; done]).
  cbv zeta.
  destruct (eq_str _ (lit "search")); [done|].
  destruct (eq_str _ (lit "visit")); [done|].
  destruct (eq_str _ (lit "answer")) eqn:Ha; [|done].
  intros [= <- <-]. exists d. apply eq_str_true in Ha.
  repeat split; try done. intros ->. done.
Qed.

(** The ways out of the loop. *)
Lemma loop_exit_cases fuel st e st' :
  loop fuel st = Some (e, st') →
  match e with
  | MaxSteps => (max_steps ≤ step st')%nat
  | _ => ∃ st0, (step st0 < max_steps)%nat ∧ round st0 = Exit e st'
  end.
Proof.
  revert st. induction fuel as [|fuel IH]; intros st; simpl.
  - destruct (step st <? max_steps)%nat eqn:E; [done|].
    intros [= <- <-]. by apply Nat.ltb_ge in E.
  - destruct (step st <? max_steps)%nat eqn:E.
    + apply Nat.ltb_lt in E. destruct (round st) as [st1|e1 st1] eqn:Hr.
      * apply IH.
      * intros [= <- <-].
        pose proof (round_exit_cases _ _ _ Hr) as Hc.
        destruct e1; try done; by exists st.
    + intros [= <- <-]. by apply Nat.ltb_ge in E.
Qed.
End AgentFacts.

(** C4, the failing input: when the model replies with the JSON array
    [[1]], the decision is a list, [decision.get] raises
    [AttributeError], and the run leaves the loop in its first round by
    neither of the two exits the claim allows. *)
Theorem agent_raises_on_array_reply
    (tools_search tools_visit json_dumps format : json → str) (user_query : str) :
  thinking_ReAct.run_gemini_simulation (fun _ _ => (lit "[1]", []))
    tools_search tools_visit json_dumps format user_query
  = Some (thinking_ReAct.AttributeError,
          after_round (thinking_ReAct.initial_state user_query) [] []).
Proof.
  unfold thinking_ReAct.run_gemini_simulation, thinking_ReAct.max_steps.
  rewrite loop_S. simpl Nat.ltb. cbv iota.
  rewrite round_non_object; [done|by vm_compute|].
  intros d. by vm_compute.
Qed.

(** C5, as stated, fails: the content [{}] is decoded to the empty
    object, but an empty dict is false in Python, so the round treats it
    as "no JSON" and does not dispatch on its (absent) action. *)
Lemma empty_object_is_not_dispatched :
  thinking_ReAct.extract_json_from_text (lit "{}") = JObj []
  ∧ ¬ dispatches (fun _ _ => (lit "{}", lit "thinking")) (fun _ => []) (fun _ => [])
        (fun _ => []) (fun _ => []) (thinking_ReAct.initial_state []) [].
Proof.
  split; [by vm_compute|].
  intros (_ & _ & _ & H).
  specialize (H ltac:(by vm_compute) ltac:(by vm_compute) ltac:(by vm_compute)).
  vm_compute in H. discriminate H.
Qed.

(** C5, amended: in every round whose decision, extracted from the
    content or else from the reasoning trace, is a non-empty JSON
    object, the loop dispatches on its "action" field: "search" calls
    the search tool on "action_input", "visit" calls the page-fetch
    tool on it, "answer" ends the loop returning it, and any other
    value gives an "Unknown action" observation and no tool call. *)
Theorem round_dispatches_on_action
    (call_llm_step : nat → list thinking_ReAct.message → str * str)
    (tools_search tools_visit json_dumps format : json → str)
    (st : thinking_ReAct.state) (d : list (str * json)) :
  decision_of (call_llm_step (thinking_ReAct.step st) (thinking_ReAct.messages st))
  = JObj d →
  d ≠ [] →
  dispatches call_llm_step tools_search tools_visit json_dumps format st d.
Proof.
  intros Hd Hne.
  assert (Ht : truthy (decision_of
            (call_llm_step (thinking_ReAct.step st) (thinking_ReAct.messages st))) = true).
  { rewrite Hd. simpl. by rewrite bool_decide_eq_false_2. }
  unfold dispatches. rewrite round_unfold. cbv zeta.
  rewrite (decision_needs_reply _ Ht), Ht, Hd. cbv iota beta. simpl negb. cbv iota.
  unfold after_round. rewrite ?app_nil_r, <- ?(assoc_L (++)).
  repeat split.
  - intros Ha. by rewrite (proj2 (eq_str_true _ _) Ha).
  - intros Ha. rewrite Ha. by vm_compute thinking_ReAct.eq_str.
  - intros Ha. rewrite Ha. by vm_compute thinking_ReAct.eq_str.
  - intros H1%eq_str_false H2%eq_str_false H3%eq_str_false.
    by rewrite H1, H2, H3.
Qed.

Lemma round_dispatches_on_action_witness :
  dispatches
    (fun _ _ => (jlit "{'thought': 't', 'action': 'visit', 'action_input': 'u'}", []))
    (fun _ => lit "found") (fun _ => lit "page") (fun _ => lit "{}") (fun _ => lit "visit")
    (thinking_ReAct.initial_state (lit "q"))
    [(lit "thought", JStr (lit "t")); (lit "action", JStr (lit "visit"));
     (lit "action_input", JStr (lit "u"))].
Proof.
  apply round_dispatches_on_action; [vm_compute; reflexivity | discriminate].
Defined.

(** C6, as stated, fails: for the content [{}] a JSON decision is
    extracted and its action (absent, so [""]) is not "answer", yet the
    round appends the single error message, not a decision and an
    observation. *)
Lemma empty_object_appends_one_message :
  thinking_ReAct.extract_json_from_text (lit " {} ") = JObj []
  ∧ dict_get (lit "action") (JStr []) [] ≠ JStr (lit "answer")
  ∧ ¬ appends_exchange (fun _ _ => (lit " {} ", [])) (fun _ => []) (fun _ => [])
        (fun _ => []) (fun _ => []) (thinking_ReAct.initial_state []) [].
Proof.
  split; [by vm_compute|]. split; [by vm_compute|].
  intros (st' & obs & Hr & Hm).
  vm_compute in Hr. injection Hr as <-. simpl in Hm. discriminate Hm.
Qed.

(** C6, amended: in every round whose decision is a non-empty JSON
    object with an action other than "answer", exactly two messages are
    appended to the history, the assistant message with the serialized
    decision and then the user message with the observation, and the
    earlier messages stay as they were; in every state a run reaches
    the history still starts with the system prompt. *)
Theorem round_appends_exchange
    (call_llm_step : nat → list thinking_ReAct.message → str * str)
    (tools_search tools_visit json_dumps format : json → str)
    (st : thinking_ReAct.state) (d : list (str * json)) :
  decision_of (call_llm_step (thinking_ReAct.step st) (thinking_ReAct.messages st))
  = JObj d →
  d ≠ [] →
  dict_get (lit "action") (JStr []) d ≠ JStr (lit "answer") →
  appends_exchange call_llm_step tools_search tools_visit json_dumps format st d
  ∧ ∀ user_query st0,
      reachable call_llm_step tools_search tools_visit json_dumps format user_query st0 →
      head (thinking_ReAct.messages st0)
      = Some (thinking_ReAct.Message (lit "system") thinking_ReAct.system_prompt).
Proof.
  intros Hd Hne Ha. split.
  - assert (Ht : truthy (decision_of
              (call_llm_step (thinking_ReAct.step st) (thinking_ReAct.messages st))) = true).
    { rewrite Hd. simpl. by rewrite bool_decide_eq_false_2. }
    unfold appends_exchange. rewrite round_unfold. cbv zeta.
    rewrite (decision_needs_reply _ Ht), Ht, Hd. cbv iota beta. simpl negb. cbv iota.
    apply eq_str_false in Ha. rewrite Ha.
    destruct (thinking_ReAct.eq_str _ (lit "search"));
      [|destruct (thinking_ReAct.eq_str _ (lit "visit"))];
      eexists _, _; (split; [reflexivity|]); done.
  - intros q st0 Hreach.
    destruct (reachable_history call_llm_step tools_search tools_visit json_dumps
                format q st0 Hreach) as [rest ->]. done.
Qed.

Lemma round_appends_exchange_witness :
  appends_exchange
    (fun _ _ => (jlit "{'action': 'search', 'action_input': 'rocq'}", []))
    (fun _ => lit "found") (fun _ => lit "page") (fun _ => lit "{}") (fun _ => lit "search")
    (thinking_ReAct.initial_state (lit "q"))
    [(lit "action", JStr (lit "search")); (lit "action_input", JStr (lit "rocq"))]
  ∧ ∀ user_query st0,
      reachable
        (fun _ _ => (jlit "{'action': 'search', 'action_input': 'rocq'}", []))
        (fun _ => lit "found") (fun _ => lit "page") (fun _ => lit "{}")
        (fun _ => lit "search") user_query st0 →
      head (thinking_ReAct.messages st0)
      = Some (thinking_ReAct.Message (lit "system") thinking_ReAct.system_prompt).
Proof.
  apply round_appends_exchange;
    [vm_compute; reflexivity | discriminate | vm_compute; discriminate].
Defined.



(** ** pdf2md: the pages come out in page order *)

Section PagesFacts.
Import pdf2md.








End PagesFacts.



(** ** research_exa: saving and loading a session *)

Section PersistenceFacts.
Import research_exa.
Variable json_dump : json → str.
Variable clock : nat → str.




End PersistenceFacts.



(** ** merge_codebase_context: what ends up in the output file *)

Section MergeFacts.
Import merge_codebase_context.






End MergeFacts.


(** ** Extraction from a fenced response *)

(** C2, as stated, fails for [extract_json_from_text]: when a string of
    the object ends in a brace followed by a fence, the lazy pattern
    stops at that brace, and so does the brace count. *)
Lemma fenced_object_not_extracted :
  serializes (jlit "{'a': '}```'}") (JObj [(lit "a", JStr (lit "}```"))])
  ∧ thinking_ReAct.extract_json_from_text
      (fenced true [10] (jlit "{'a': '}```'}") [10])
    ≠ JObj [(lit "a", JStr (lit "}```"))].
Proof. vm_compute. repeat split; discriminate. Qed.

(** It also fails, for both functions, when the prose around the fence
    makes the whole response a JSON text of its own. *)
Lemma fenced_object_inside_string :
  serializes (lit "{}") (JObj [])
  ∧ research_exa.extract_json_from_response
      ([34] ++ fenced true [32] (lit "{}") [32] ++ [34]) JNull
    = JStr (fenced true [32] (lit "{}") [32])
  ∧ thinking_ReAct.extract_json_from_text
      ([34] ++ fenced true [32] (lit "{}") [32] ++ [34])
    = JStr (fenced true [32] (lit "{}") [32]).
Proof. vm_compute. repeat split. Qed.

(** *** The matcher on the fence patterns *)

Lemma fence_eq : fence = [96; 96; 96].
Proof. reflexivity. Qed.

Section MatcherFacts.
Context {A : Type}.
Implicit Types k : str → option A.

(** A greedy star that finds its continuation satisfied after the
    longest run takes it. *)
Lemma star_greedy_skip cls w rest k r :
  Forall (fun c => cls c = true) w →
  k rest = Some r →
  head rest = None ∨ (∃ c, head rest = Some c ∧ cls c = false) →
  star_greedy cls (w ++ rest) k = Some r.
Proof.
  intros Hw Hk Hrest. induction Hw as [|c w Hc _ IH]; simpl.
  - destruct rest as [|c rest']; [done|]. simpl.
    destruct Hrest as [?|(c' & [= <-] & ->)]; [done|]. done.
  - by rewrite Hc, IH.
Qed.

Lemma star_greedy_none cls s k :
  (∀ j, (j ≤ length s)%nat → k (drop j s) = None) → star_greedy cls s k = None.
Proof.
  induction s as [|c s IH]; intros Hk; simpl.
  - apply (Hk 0%nat). simpl. lia.
  - rewrite IH.
    + pose proof (Hk 0%nat ltac:(simpl; lia)) as H0. simpl in H0. rewrite H0.
      by destruct (cls c).
    + intros j Hj. apply (Hk (S j)). simpl. lia.
Qed.

(** A greedy [.*] stops at the last place where the continuation holds. *)
Lemma star_greedy_last a b k r :
  k b = Some r →
  (∀ j, (0 < j ≤ length b)%nat → k (drop j b) = None) →
  star_greedy any_char (a ++ b) k = Some r.
Proof.
  intros Hk Hnone. induction a as [|x a IH]; simpl.
  - destruct b as [|c b]; [done|]. simpl.
    rewrite star_greedy_none; [done|].
    intros j Hj. apply (Hnone (S j)). simpl. lia.
  - by rewrite IH.
Qed.

Lemma star_greedy_result cls s k r :
  star_greedy cls s k = Some r → ∃ j, (j ≤ length s)%nat ∧ k (drop j s) = Some r.
Proof.
  induction s as [|c s IH]; simpl.
  - intros H. by exists 0%nat.
  - destruct (cls c).
    + destruct (star_greedy cls s k) as [r'|] eqn:E.
      * intros [= ->]. destruct (IH eq_refl) as (j & Hj & Hk).
        exists (S j). split; [lia|done].
      * intros H. exists 0%nat. split; [lia|done].
    + intros H. exists 0%nat. split; [lia|done].
Qed.

(** A lazy [.*?] stops at the first place where the continuation holds. *)
Lemma star_lazy_first n s k r :
  (n ≤ length s)%nat →
  k (drop n s) = Some r →
  (∀ j, (j < n)%nat → k (drop j s) = None) →
  star_lazy any_char s k = Some r.
Proof.
  revert s. induction n as [|n IH]; intros s Hn Hk Hnone.
  - destruct s; simpl in *; by rewrite Hk.
  - destruct s as [|c s]; [simpl in Hn; lia|].
    pose proof (Hnone 0%nat ltac:(lia)) as H0. simpl in H0. simpl. rewrite H0.
    apply IH; [simpl in Hn; lia|done|].
    intros j Hj. apply (Hnone (S j)). lia.
Qed.

Lemma star_lazy_result cls s k r :
  star_lazy cls s k = Some r →
  ∃ n, (n ≤ length s)%nat ∧ k (drop n s) = Some r.
Proof.
  induction s as [|c s IH]; simpl.
  - destruct (k []) eqn:E; [|done]. intros [= ->]. by exists 0%nat.
  - destruct (k (c :: s)) eqn:E.
    + intros [= ->]. exists 0%nat. split; [lia|done].
    + destruct (cls c); [|done]. intros H.
      destruct (IH H) as (n & Hn & Hk). exists (S n). split; [lia|done].
Qed.
End MatcherFacts.

(** [re.search] skips the positions where the pattern does not match. *)
Lemma re_search_skip r a b :
  (∀ j, (j < length a)%nat → rmatch r (drop j (a ++ b)) None (fun _ g => Some g) = None) →
  re_search r (a ++ b) = re_search r b.
Proof.
  induction a as [|c a IH]; intros H; [done|].
  change (re_search r ((c :: a) ++ b)) with
    (match rmatch r ((c :: a) ++ b) None (fun _ g => Some g) with
     | Some g => Some g
     | None => re_search r (a ++ b)
     end).
  pose proof (H 0%nat ltac:(simpl; lia)) as H0. simpl in H0. simpl app. rewrite H0.
  apply IH. intros j Hj. apply (H (S j)). simpl. lia.
Qed.

Lemma re_search_here r s g :
  rmatch r s None (fun _ g => Some g) = Some g → re_search r s = Some g.
Proof. intros H. destruct s; simpl; by rewrite H. Qed.

Lemma startswith_app p x : startswith p (p ++ x) = true.
Proof. induction p as [|c p IH]; simpl; [by destruct x|]. by rewrite N.eqb_refl. Qed.

Lemma isspace_not_backtick c : isspace c = true → c ≠ 96.
Proof. by intros H ->. Qed.

Lemma isspace_not_brace c : isspace c = true → c ≠ 123 ∧ c ≠ 125.
Proof. intros H. split; by intros ->. Qed.

Lemma lstrip_whitespace w c rest :
  whitespace w → isspace c = false → lstrip (w ++ c :: rest) = c :: rest.
Proof.
  intros Hw Hc. induction Hw as [|x w Hx _ IH]; simpl; [by rewrite Hc|by rewrite Hx].
Qed.

(** After optional whitespace the closing fence must follow: whitespace
    and backticks being different characters, the greedy [\s*] has one
    way to succeed. *)
Lemma star_greedy_fence {A} s (f : str → option A) :
  star_greedy isspace s (fun s2 => if startswith fence s2 then f s2 else None)
  = if startswith fence (lstrip s) then f (lstrip s) else None.
Proof.
  induction s as [|c s IH]; [done|]. cbn [star_greedy lstrip].
  destruct (isspace c) eqn:Hc; [|done].
  rewrite IH.
  assert (startswith fence (c :: s) = false) as ->.
  { apply isspace_not_backtick in Hc.
    rewrite fence_eq. cbn [startswith]. destruct (96 =? c) eqn:E; [|done].
    apply N.eqb_eq in E. congruence. }
  by destruct (if startswith fence (lstrip s) then f (lstrip s) else None).
Qed.

Lemma contains_app_r p a b : contains p (a ++ b) = false → contains p b = false.
Proof.
  induction a as [|c a IH]; [done|]. simpl.
  intros [_ H]%orb_false_iff. by apply IH.
Qed.

Lemma contains_head p s : contains p s = false → startswith p s = false.
Proof. destruct s; simpl; by intros [? _]%orb_false_iff. Qed.

Lemma startswith_fence_snoc x c rest :
  c ≠ 96 → startswith fence (x ++ c :: rest) = startswith fence (x ++ [c]).
Proof.
  intros Hc. rewrite fence_eq.
  assert (E : (96 =? c) = false) by (apply N.eqb_neq; congruence).
  destruct x as [|a [|b [|d x]]]; cbn [startswith app]; rewrite ?E, ?andb_false_r; done.
Qed.

(** Inside a text without a fence, whitespace is never followed by one
    before the text's closing brace. *)
Lemma no_fence_before_brace u rest :
  contains fence (u ++ [125]) = false →
  startswith fence (lstrip (u ++ 125 :: rest)) = false.
Proof.
  induction u as [|a u IH]; [done|]. intros H. cbn [app lstrip].
  destruct (isspace a).
  - apply IH. cbn [app contains] in H. by apply orb_false_iff in H as [_ ?].
  - change (a :: u ++ 125 :: rest) with ((a :: u) ++ 125 :: rest).
    rewrite startswith_fence_snoc by done. by apply contains_head.
Qed.


Lemma rmatch_closing {A} w post g (k : str → option str → option A) :
  whitespace w → rmatch closing (w ++ fence ++ post) g k = k post g.
Proof.
  intros Hw. cbn [rmatch].
  rewrite (star_greedy_fence _ (fun s2 => k (drop (length fence) s2) g)).
  assert (lstrip (w ++ fence ++ post) = fence ++ post) as ->.
  { rewrite fence_eq. by apply (lstrip_whitespace w 96 ([96; 96] ++ post)). }
  by rewrite startswith_app, drop_app_length.
Qed.

Lemma rmatch_closing_fail {A} u rest g (k : str → option str → option A) :
  contains fence (u ++ [125]) = false →
  rmatch closing (u ++ 125 :: rest) g k = None.
Proof.
  intros H. cbn [rmatch].
  rewrite (star_greedy_fence _ (fun s2 => k (drop (length fence) s2) g)).
  by rewrite no_fence_before_brace.
Qed.

Lemma rmatch_seq {A} r1 r2 s g (k : str → option str → option A) :
  rmatch (RSeq r1 r2) s g k = rmatch r1 s g (fun s1 g1 => rmatch r2 s1 g1 k).
Proof. reflexivity. Qed.

Lemma rmatch_lit {A} p s g (k : str → option str → option A) :
  rmatch (RLit p) s g k = if startswith p s then k (drop (length p) s) g else None.
Proof. reflexivity. Qed.

Lemma rmatch_group {A} r s g (k : str → option str → option A) :
  rmatch (RGroup r) s g k
  = rmatch r s g (fun s1 _ => k s1 (Some (take (length s - length s1) s))).
Proof. reflexivity. Qed.

Lemma rmatch_lazy {A} cls s g (k : str → option str → option A) :
  rmatch (RLazy cls) s g k = star_lazy cls s (fun s1 => k s1 g).
Proof. reflexivity. Qed.

Lemma rmatch_star {A} cls s g (k : str → option str → option A) :
  rmatch (RStar cls) s g k = star_greedy cls s (fun s1 => k s1 g).
Proof. reflexivity. Qed.

Lemma rmatch_opt {A} r s g (k : str → option str → option A) :
  rmatch (ROpt r) s g k
  = match rmatch r s g k with Some x => Some x | None => k s g end.
Proof. reflexivity. Qed.

Lemma serializes_shape (t : str) :
  head t = Some 123 → last t = Some 125 → ∃ body, t = 123 :: body ++ [125].
Proof.
  intros Hh Hl. apply last_Some in Hl as [l' ->].
  destruct l' as [|c l']; simpl in Hh; [by simplify_eq|].
  simplify_eq. by exists l'.
Qed.

Lemma contains_drop (p s : str) j : contains p s = false → contains p (drop j s) = false.
Proof. intros H. rewrite <- (take_drop j s) in H. by apply contains_app_r in H. Qed.

(** A proper end of the text still ends in the closing brace and still
    holds no fence. *)
Lemma text_tail (x : str) j :
  (j ≤ length x)%nat → contains fence (x ++ [125]) = false →
  ∃ u, drop j (x ++ [125]) = u ++ [125] ∧ contains fence (u ++ [125]) = false.
Proof.
  intros Hj Hc. exists (drop j x). rewrite <- drop_app_le by done.
  split; [done|]. by apply contains_drop.
Qed.

Lemma take_consumed (t rest : str) :
  take (length (t ++ rest) - length rest) (t ++ rest) = t.
Proof. by rewrite length_app, Nat.add_sub, take_app_length. Qed.

(** The lazy group of research_exa.py captures the fenced text. *)
Lemma rmatch_lazy_text (x w post : str) g :
  whitespace w → contains fence (x ++ [125]) = false →
  rmatch (RSeq (RGroup (RLazy any_char)) closing)
    ((x ++ [125]) ++ w ++ fence ++ post) g (fun _ g => Some g)
  = Some (Some (x ++ [125])).
Proof.
  intros Hw Hc. rewrite rmatch_seq, rmatch_group, rmatch_lazy.
  apply (star_lazy_first (length (x ++ [125]))).
  - rewrite !length_app. lia.
  - rewrite drop_app_length, rmatch_closing by done.
    by rewrite take_consumed.
  - intros j Hj. rewrite drop_app_le by lia.
    destruct (text_tail x j) as (u & -> & Hu); [rewrite length_app in Hj; simpl in Hj; lia|done|].
    rewrite <- (assoc_L (++)). by apply rmatch_closing_fail.
Qed.

(** The lazy group of thinking_ReAct.py captures the fenced object. *)
Lemma rmatch_lazy_object (body w post : str) g :
  whitespace w → contains fence (123 :: body ++ [125]) = false →
  rmatch (RSeq (RGroup (RSeq (RLit (lit "{")) (RSeq (RLazy any_char) (RLit (lit "}")))))
            closing)
    ((123 :: body ++ [125]) ++ w ++ fence ++ post) g (fun _ g => Some g)
  = Some (Some (123 :: body ++ [125])).
Proof.
  intros Hw Hc. rewrite rmatch_seq, rmatch_group, rmatch_seq, rmatch_lit.
  change (startswith (lit "{") ((123 :: body ++ [125]) ++ w ++ fence ++ post)) with true.
  cbv iota.
  change (drop (length (lit "{")) ((123 :: body ++ [125]) ++ w ++ fence ++ post))
    with ((body ++ [125]) ++ w ++ fence ++ post).
  rewrite rmatch_seq, rmatch_lazy.
  apply (star_lazy_first (length body)).
  - rewrite !length_app. lia.
  - rewrite <- (assoc_L (++)), drop_app_length. rewrite rmatch_lit.
    change (startswith (lit "}") ([125] ++ w ++ fence ++ post)) with true. cbv iota.
    change (drop (length (lit "}")) ([125] ++ w ++ fence ++ post)) with (w ++ fence ++ post).
    rewrite rmatch_closing by done.
    by rewrite take_consumed.
  - intros j Hj. rewrite <- (assoc_L (++)), drop_app_le by lia.
    destruct (drop j body) as [|c u] eqn:E.
    { apply (f_equal length) in E. rewrite length_drop in E. simpl in E. lia. }
    rewrite rmatch_lit.
    change (startswith (lit "}") ((c :: u) ++ [125] ++ w ++ fence ++ post))
      with ((125 =? c) && true).
    destruct (125 =? c); [|done]. cbv iota. simpl andb. cbv iota.
    change (drop (length (lit "}")) ((c :: u) ++ [125] ++ w ++ fence ++ post))
      with (u ++ 125 :: w ++ fence ++ post).
    apply rmatch_closing_fail.
    assert (Hs : contains fence (drop (S (S j)) (123 :: body ++ [125])) = false)
      by (by apply contains_drop).
    simpl drop in Hs. rewrite drop_app_le in Hs by lia.
    assert (drop (S j) body = u) as Hu.
    { by rewrite <- (Nat.add_1_r j), <- drop_drop, E. }
    by rewrite Hu in Hs.
Qed.

Lemma no_tag_ahead (w rest : str) :
  whitespace w → head rest = Some 123 → startswith (lit "json") (w ++ rest) = false.
Proof.
  intros Hw Hr. destruct Hw as [|c w Hc _].
  - destruct rest as [|c rest]; simplify_eq/=. done.
  - assert (c ≠ 106) by (by intros ->).
    change (startswith (lit "json") ((c :: w) ++ rest))
      with ((106 =? c) && startswith (lit "son") (w ++ rest)).
    destruct (106 =? c) eqn:E; [|done]. apply N.eqb_eq in E. congruence.
Qed.

(** The opening of both fence patterns: the fence, the optional tag,
    whitespace, and then the rest of the pattern on the text. *)
Lemma rmatch_opening (tag : bool) (w rest : str) (r : regex) g x :
  whitespace w → head rest = Some 123 →
  rmatch r rest g (fun _ g => Some g) = Some x →
  rmatch (RSeq (RLit fence) (RSeq (ROpt (RLit (lit "json"))) (RSeq (RStar isspace) r)))
    (fence ++ (if tag then lit "json" else []) ++ w ++ rest) g (fun _ g => Some g)
  = Some x.
Proof.
  intros Hw Hr Hx.
  assert (Hstar : rmatch (RSeq (RStar isspace) r) (w ++ rest) g (fun _ g => Some g) = Some x).
  { rewrite rmatch_seq, rmatch_star. apply star_greedy_skip; [done..|].
    right. exists 123. by split. }
  rewrite rmatch_seq, rmatch_lit, startswith_app, drop_app_length.
  rewrite rmatch_seq, rmatch_opt, rmatch_lit.
  destruct tag.
  - by rewrite startswith_app, drop_app_length, Hstar.
  - rewrite app_nil_l, no_tag_ahead by done. done.
Qed.

(** A fence that starts inside the prose laps over the opening fence,
    and a backtick follows it. *)
Lemma overlapping_fence (p rest : str) :
  p ≠ [] → contains fence p = false →
  startswith fence (p ++ fence ++ rest) = true →
  drop (length fence) (p ++ fence ++ rest) = 96 :: rest
  ∨ drop (length fence) (p ++ fence ++ rest) = 96 :: 96 :: rest.
Proof.
  intros Hp Hc Hs. destruct p as [|a [|b [|c p]]]; [done|by left|by right|].
  apply contains_head in Hc. rewrite fence_eq in Hc, Hs.
  cbn [startswith app] in Hc, Hs. congruence.
Qed.

(** thinking_ReAct.py: no match starts inside the prose. *)
Lemma no_object_match_in_prose (p rest : str) :
  p ≠ [] → contains fence p = false →
  rmatch thinking_ReAct.fenced_object_pattern (p ++ fence ++ rest) None
    (fun _ g => Some g) = None.
Proof.
  intros Hp Hc. unfold thinking_ReAct.fenced_object_pattern.
  rewrite rmatch_seq, rmatch_lit.
  destruct (startswith fence (p ++ fence ++ rest)) eqn:Hs; [|done].
  destruct (overlapping_fence p rest Hp Hc Hs) as [-> | ->]; reflexivity.
Qed.

Lemma json_loads_backtick s : json_loads (96 :: s) = None.
Proof. reflexivity. Qed.

(** research_exa.py: a match that starts inside the prose captures
    text that begins with a backtick, which is no JSON. *)
Lemma garbage_match_in_prose (p rest : str) m :
  p ≠ [] → contains fence p = false → head rest ≠ Some 96 →
  rmatch research_exa.code_block_pattern (p ++ fence ++ rest) None
    (fun _ g => Some g) = Some m →
  json_loads (group1 m) = None.
Proof.
  intros Hp Hc Hr. unfold research_exa.code_block_pattern.
  rewrite rmatch_seq, rmatch_lit.
  destruct (startswith fence (p ++ fence ++ rest)) eqn:Hs; [|done].
  assert (∃ s1, drop (length fence) (p ++ fence ++ rest) = 96 :: s1
                ∧ startswith fence (96 :: s1) = false) as (s1 & -> & Hs1).
  { destruct (overlapping_fence p rest Hp Hc Hs) as [-> | ->]; eexists; (split; [done|]);
      rewrite fence_eq; destruct rest as [|c rest]; cbn [startswith]; try done;
      destruct (96 =? c) eqn:E; try done; apply N.eqb_eq in E; by subst. }
  rewrite rmatch_seq, rmatch_opt, rmatch_lit.
  change (startswith (lit "json") (96 :: s1)) with false. cbv iota.
  rewrite rmatch_seq, rmatch_star. cbn [star_greedy].
  change (isspace 96) with false. cbv iota.
  rewrite rmatch_seq, rmatch_group, rmatch_lazy.
  intros (n & Hn & Hk)%star_lazy_result.
  cbn [rmatch] in Hk.
  rewrite (star_greedy_fence _ (fun s2 => Some _)) in Hk.
  destruct n as [|n].
  - cbn [drop lstrip] in Hk. change (isspace 96) with false in Hk. cbv iota in Hk.
    by rewrite Hs1 in Hk.
  - destruct (startswith fence (lstrip (drop (S n) (96 :: s1)))); [|done].
    simplify_eq. rewrite length_drop.
    replace (length (96%N :: s1) - (length (96%N :: s1) - S n))%nat with (S n) by lia.
    apply json_loads_backtick.
Qed.

Lemma fenced_unfold tag (w1 t w2 post : str) :
  fenced tag w1 t w2 ++ post
  = fence ++ (if tag then lit "json" else []) ++ w1 ++ (t ++ w2 ++ fence ++ post).
Proof. unfold fenced. by rewrite <- !(assoc_L (++)). Qed.

Lemma drop_nonempty (s : str) j : (j < length s)%nat → drop j s ≠ [].
Proof.
  intros Hj E. apply (f_equal length) in E. rewrite length_drop in E. simpl in E. lia.
Qed.

(** thinking_ReAct.py finds the object in the fence. *)
Lemma fence_parse_text (pre post t w1 w2 : str) tag J :
  serializes t J → whitespace w1 → whitespace w2 →
  contains fence t = false → contains fence pre = false →
  fence_parse thinking_ReAct.fenced_object_pattern (pre ++ fenced tag w1 t w2 ++ post)
  = Some J.
Proof.
  intros (HJ & Hh & Hl) Hw1 Hw2 Ht Hpre.
  destruct (serializes_shape t Hh Hl) as [body ->].
  unfold fence_parse. rewrite re_search_skip.
  - rewrite (re_search_here _ _ (Some (123 :: body ++ [125]))); [by simpl|].
    rewrite fenced_unfold. apply rmatch_opening; [done..|].
    by apply rmatch_lazy_object.
  - intros j Hj. rewrite drop_app_le by lia. rewrite fenced_unfold.
    apply no_object_match_in_prose; [by apply drop_nonempty|by apply contains_drop].
Qed.

(** research_exa.py: the fence strategy yields the object or nothing. *)
Lemma fence_parse_response (pre post t w1 w2 : str) tag J :
  serializes t J → whitespace w1 → whitespace w2 →
  contains fence t = false → contains fence pre = false →
  fence_parse research_exa.code_block_pattern (pre ++ fenced tag w1 t w2 ++ post)
    = Some J
  ∨ fence_parse research_exa.code_block_pattern (pre ++ fenced tag w1 t w2 ++ post)
    = None.
Proof.
  intros (HJ & Hh & Hl) Hw1 Hw2 Ht Hpre.
  destruct (serializes_shape t Hh Hl) as [body Hbody].
  unfold fence_parse. rewrite fenced_unfold.
  induction pre as [|c pre IH].
  - left. rewrite app_nil_l.
    rewrite (re_search_here _ _ (Some t)); [by simpl|].
    apply rmatch_opening; [done| by rewrite Hbody |].
    rewrite Hbody. change (123 :: body ++ [125]) with ((123 :: body) ++ [125]).
    apply rmatch_lazy_text; [done|]. by rewrite Hbody in Ht.
  - change (re_search research_exa.code_block_pattern
              ((c :: pre) ++ fence ++ (if tag then lit "json" else []) ++ w1 ++
               t ++ w2 ++ fence ++ post))
      with (match rmatch research_exa.code_block_pattern
                    ((c :: pre) ++ fence ++ (if tag then lit "json" else []) ++ w1 ++
                     t ++ w2 ++ fence ++ post) None (fun _ g => Some g) with
            | Some g => Some g
            | None => re_search research_exa.code_block_pattern
                        (pre ++ fence ++ (if tag then lit "json" else []) ++ w1 ++
                         t ++ w2 ++ fence ++ post)
            end).
    destruct (rmatch research_exa.code_block_pattern _ None _) as [m|] eqn:Hm.
    + right. simpl. refine (garbage_match_in_prose (c :: pre) _ m _ Hpre _ Hm); [done|].
      destruct tag; [done|]. rewrite app_nil_l.
      destruct Hw1 as [|x w Hx _]; [rewrite Hbody; by simpl|].
      simpl. intros [= ->]. done.
    + apply IH. cbn [contains] in Hpre. by apply orb_false_iff in Hpre as [_ ?].
Qed.

Lemma no_object_match_here (c : char) (s : str) :
  c ≠ 123 →
  rmatch research_exa.json_obj_pattern (c :: s) None (fun _ g => Some g) = None.
Proof.
  intros Hc. unfold research_exa.json_obj_pattern.
  rewrite rmatch_group, rmatch_seq, rmatch_lit.
  change (startswith (lit "{") (c :: s)) with ((123 =? c) && true).
  destruct (123 =? c) eqn:E; [|done]. apply N.eqb_eq in E. congruence.
Qed.

(** research_exa.py: the brace search yields the object when the prose
    has no braces. *)
Lemma boundary_parse_response (pre post t w1 w2 : str) tag J :
  serializes t J → whitespace w1 → whitespace w2 →
  no_braces pre → no_braces post →
  fence_parse research_exa.json_obj_pattern (pre ++ fenced tag w1 t w2 ++ post)
  = Some J.
Proof.
  intros (HJ & Hh & Hl) Hw1 Hw2 Hpre Hpost.
  destruct (serializes_shape t Hh Hl) as [body ->].
  unfold fence_parse. rewrite fenced_unfold.
  rewrite !(assoc_L (++) _ _ ((123 :: body ++ [125]) ++ _)).
  assert (Hbefore : no_braces (pre ++ fence ++ (if tag then lit "json" else []) ++ w1)).
  { unfold no_braces. rewrite !Forall_app. repeat split.
    - done.
    - rewrite fence_eq. by repeat constructor.
    - destruct tag; by repeat constructor.
    - eapply Forall_impl; [exact Hw1|]. intros c. apply isspace_not_brace. }
  assert (Hafter : no_braces (w2 ++ fence ++ post)).
  { unfold no_braces. rewrite !Forall_app. repeat split.
    - eapply Forall_impl; [exact Hw2|]. intros c. apply isspace_not_brace.
    - rewrite fence_eq. by repeat constructor.
    - done. }
  remember (pre ++ fence ++ (if tag then lit "json" else []) ++ w1) as before.
  rewrite re_search_skip.
  - rewrite (re_search_here _ _ (Some (123 :: body ++ [125]))); [by simpl|].
    unfold research_exa.json_obj_pattern.
    rewrite rmatch_group, rmatch_seq, rmatch_lit.
    change (startswith (lit "{") ((123 :: body ++ [125]) ++ w2 ++ fence ++ post)) with true.
    cbv iota.
    change (drop (length (lit "{")) ((123 :: body ++ [125]) ++ w2 ++ fence ++ post))
      with ((body ++ [125]) ++ w2 ++ fence ++ post).
    rewrite <- (assoc_L (++)).
    change ([125] ++ w2 ++ fence ++ post) with (125 :: w2 ++ fence ++ post).
    rewrite rmatch_seq, rmatch_star.
    apply star_greedy_last.
    + rewrite rmatch_lit.
      change (startswith (lit "}") (125 :: w2 ++ fence ++ post)) with true. cbv iota.
      change (drop (length (lit "}")) (125 :: w2 ++ fence ++ post))
        with (w2 ++ fence ++ post).
      by rewrite take_consumed.
    + intros j [Hj1 Hj2]. destruct j as [|j]; [lia|]. cbn [drop].
      rewrite rmatch_lit.
      destruct (drop j (w2 ++ fence ++ post)) as [|c u] eqn:E; [done|].
      assert (Hc : c ∈ w2 ++ fence ++ post).
      { rewrite <- (take_drop j (w2 ++ fence ++ post)), E. set_solver. }
      unfold no_braces in Hafter. rewrite Forall_forall in Hafter.
      destruct (Hafter c Hc) as [_ Hc'].
      change (startswith (lit "}") (c :: u)) with ((125 =? c) && true).
      destruct (125 =? c) eqn:E'; [|done]. apply N.eqb_eq in E'. congruence.
  - intros j Hj.
    rewrite drop_app_le by lia.
    destruct (drop j before) as [|c u] eqn:E; [by destruct (drop_nonempty before j Hj)|].
    assert (Hc : c ∈ before).
    { rewrite <- (take_drop j before), E. set_solver. }
    unfold no_braces in Hbefore. rewrite Forall_forall in Hbefore.
    destruct (Hbefore c Hc) as [Hc' _].
    by apply no_object_match_here.
Qed.

Lemma lstrip_app_nonspace (a b : str) (c : char) :
  isspace c = false → lstrip (a ++ c :: b) = lstrip a ++ c :: b.
Proof.
  intros Hc. induction a as [|x a IH]; simpl; [by rewrite Hc|].
  by destruct (isspace x).
Qed.

Lemma rstrip_app_nonspace (a b : str) (c : char) :
  isspace c = false → rstrip (a ++ c :: b) = a ++ c :: rstrip b.
Proof.
  intros Hc. unfold rstrip.
  rewrite reverse_app, reverse_cons, <- (assoc_L (++)).
  change ([c] ++ reverse a) with (c :: reverse a).
  rewrite lstrip_app_nonspace by done.
  rewrite reverse_app, reverse_cons, reverse_involutive.
  by rewrite <- (assoc_L (++)).
Qed.

(** [strip] touches the prose only: a fence begins and ends with a
    backtick. *)
Lemma strip_fenced (pre post t w1 w2 : str) tag :
  strip (pre ++ fenced tag w1 t w2 ++ post)
  = lstrip pre ++ fenced tag w1 t w2 ++ rstrip post.
Proof.
  unfold strip, fenced.
  set (inner := (if tag then lit "json" else []) ++ w1 ++ t ++ w2).
  assert (Hl : ∀ a b : str,
    a ++ (fence ++ (if tag then lit "json" else []) ++ w1 ++ t ++ w2 ++ fence) ++ b
    = a ++ 96 :: ([96; 96] ++ inner ++ fence ++ b)).
  { intros a b. unfold inner. rewrite fence_eq, <- !(assoc_L (++)). done. }
  assert (Hr : ∀ a b : str,
    a ++ 96 :: ([96; 96] ++ inner ++ fence ++ b)
    = (a ++ fence ++ inner ++ [96; 96]) ++ 96 :: b).
  { intros a b. rewrite fence_eq, <- !(assoc_L (++)). done. }
  rewrite !Hl, lstrip_app_nonspace by done.
  by rewrite !Hr, rstrip_app_nonspace.
Qed.

Lemma fenced_nonempty (pre post t w1 w2 : str) tag :
  pre ++ fenced tag w1 t w2 ++ post ≠ [].
Proof.
  unfold fenced. rewrite fence_eq. intros H%(f_equal length).
  rewrite !length_app in H. simpl in H. lia.
Qed.

Lemma lstrip_keeps (P : char → Prop) (s : str) : Forall P s → Forall P (lstrip s).
Proof.
  destruct (lstrip_spec s) as (w & Hs & _). intros H. rewrite Hs in H.
  by apply Forall_app in H as [_ ?].
Qed.

Lemma rstrip_keeps (P : char → Prop) (s : str) : Forall P s → Forall P (rstrip s).
Proof.
  destruct (rstrip_spec s) as (w & Hs & _). intros H. rewrite Hs in H.
  by apply Forall_app in H as [? _].
Qed.

Lemma lstrip_no_fence (s : str) : contains fence s = false → contains fence (lstrip s) = false.
Proof.
  destruct (lstrip_spec s) as (w & Hs & _). intros H. rewrite Hs in H.
  by apply contains_app_r in H.
Qed.

(** C2, amended: for every JSON object J with a serialization that
    holds no code fence, and every response that wraps this
    serialization in a markdown code fence (with or without the [json]
    tag), within prose that holds no other code fence and no brace,
    provided the response, stripped of surrounding whitespace, is not a
    JSON text of its own, [extract_json_from_response] and
    [extract_json_from_text] each return J; and they return J for the
    bare serialization. *)
Theorem fenced_json_is_extracted (J : json) (t pre post w1 w2 : str) (tag : bool)
    (default : json) :
  serializes t J →
  whitespace w1 → whitespace w2 →
  contains fence pre = false → contains fence post = false →
  no_braces pre → no_braces post →
  contains fence t = false →
  json_loads (strip (pre ++ fenced tag w1 t w2 ++ post)) = None →
  research_exa.extract_json_from_response (pre ++ fenced tag w1 t w2 ++ post) default = J
  ∧ thinking_ReAct.extract_json_from_text (pre ++ fenced tag w1 t w2 ++ post) = J
  ∧ research_exa.extract_json_from_response t default = J
  ∧ thinking_ReAct.extract_json_from_text t = J.
Proof.
  intros Hser Hw1 Hw2 Hpre _ Hbpre Hbpost Ht Hdirect.
  pose proof (fenced_nonempty pre post t w1 w2 tag) as Hne.
  repeat split.
  - unfold research_exa.extract_json_from_response.
    rewrite (bool_decide_eq_false_2 _ Hne). cbv zeta. rewrite Hdirect.
    rewrite strip_fenced.
    change (match re_search research_exa.code_block_pattern ?c with
            | Some m => json_loads (group1 m) | None => None end)
      with (fence_parse research_exa.code_block_pattern c).
    change (match re_search research_exa.json_obj_pattern ?c with
            | Some m => json_loads (group1 m) | None => None end)
      with (fence_parse research_exa.json_obj_pattern c).
    rewrite (boundary_parse_response (lstrip pre) (rstrip post) t w1 w2 tag J)
      by (done || by apply lstrip_keeps || by apply rstrip_keeps).
    destruct (fence_parse_response (lstrip pre) (rstrip post) t w1 w2 tag J)
      as [-> | ->]; try done. by apply lstrip_no_fence.
  - unfold thinking_ReAct.extract_json_from_text.
    rewrite (bool_decide_eq_false_2 _ Hne).
    destruct (json_loads (pre ++ fenced tag w1 t w2 ++ post)) as [v|] eqn:Hv.
    { apply json_loads_strip in Hv. congruence. }
    change (match re_search thinking_ReAct.fenced_object_pattern ?c with
            | Some m => json_loads (group1 m) | None => None end)
      with (fence_parse thinking_ReAct.fenced_object_pattern c).
    by rewrite (fence_parse_text pre post t w1 w2 tag J).
  - destruct Hser as (HJ & _). by apply extract_json_from_response_direct.
  - destruct Hser as (HJ & _). by apply extract_json_from_text_direct.
Qed.

Lemma fenced_json_is_extracted_witness :
  research_exa.extract_json_from_response
    (lit "Here is my decision:" ++ fenced true [10] (jlit "{'action': 'answer'}") [10]
       ++ lit " Done.") JNull
  = JObj [(lit "action", JStr (lit "answer"))]
  ∧ thinking_ReAct.extract_json_from_text
      (lit "Here is my decision:" ++ fenced true [10] (jlit "{'action': 'answer'}") [10]
         ++ lit " Done.")
    = JObj [(lit "action", JStr (lit "answer"))]
  ∧ research_exa.extract_json_from_response (jlit "{'action': 'answer'}") JNull
    = JObj [(lit "action", JStr (lit "answer"))]
  ∧ thinking_ReAct.extract_json_from_text (jlit "{'action': 'answer'}")
    = JObj [(lit "action", JStr (lit "answer"))].
Proof.
  apply fenced_json_is_extracted.
  - vm_compute. repeat split.
  - repeat constructor.
  - repeat constructor.
  - vm_compute. reflexivity.
  - vm_compute. reflexivity.
  - vm_compute. repeat constructor; discriminate.
  - vm_compute. repeat constructor; discriminate.
  - vm_compute. reflexivity.
  - vm_compute. reflexivity.
Defined.

(** * Further facts *)

(** ** Whitespace around a reply *)

Lemma lstrip_head s :
  lstrip s = [] ∨ ∃ c rest, lstrip s = c :: rest ∧ isspace c = false.
Proof.
  induction s as [|c s IH]; [by left|]. simpl.
  destruct (isspace c) eqn:Hc; [done|]. right. by exists c, s.
Qed.

Lemma lstrip_fixed c rest : isspace c = false → lstrip (c :: rest) = c :: rest.
Proof. intros H. simpl. by rewrite H. Qed.

Lemma lstrip_idempotent s : lstrip (lstrip s) = lstrip s.
Proof.
  destruct (lstrip_head s) as [->|(c & rest & -> & Hc)]; [done|].
  by apply lstrip_fixed.
Qed.

Lemma rstrip_idempotent s : rstrip (rstrip s) = rstrip s.
Proof. unfold rstrip. by rewrite reverse_involutive, lstrip_idempotent. Qed.

Lemma lstrip_rstrip s : lstrip s = s → lstrip (rstrip s) = rstrip s.
Proof.
  intros Hs. destruct (rstrip_spec s) as (w & Hw & _).
  destruct (rstrip s) as [|c r] eqn:E; [done|].
  destruct (lstrip_head s) as [H|(c' & rest & H & Hc)]; rewrite Hs in H.
  - by rewrite H in Hw.
  - rewrite H in Hw. simplify_eq/=. by rewrite Hc.
Qed.

Lemma strip_idempotent s : strip (strip s) = strip s.
Proof.
  unfold strip.
  rewrite (lstrip_rstrip (lstrip s)) by apply lstrip_idempotent.
  apply rstrip_idempotent.
Qed.

(** X1: [extract_json_from_response] does not see the whitespace
    around the content: stripping the content first changes nothing,
    also when the content is nothing but whitespace. *)
Theorem extract_json_from_response_strip (content : str) (default : json) :
  research_exa.extract_json_from_response (strip content) default
  = research_exa.extract_json_from_response content default.
Proof.
  unfold research_exa.extract_json_from_response.
  rewrite strip_idempotent.
  destruct (decide (content = [])) as [->|Hc].
  { reflexivity. }
  rewrite (bool_decide_eq_false_2 (content = [])) by done.
  destruct (decide (strip content = [])) as [Hs|Hs].
  - rewrite (bool_decide_eq_true_2 (strip content = [])) by done.
    rewrite Hs. reflexivity.
  - by rewrite (bool_decide_eq_false_2 (strip content = [])).
Qed.

(** ** Patterns that need a character the text does not have *)

Section MatcherSuffixes.
Context {A : Type}.

Lemma star_lazy_none cls s (k : str → option A) :
  (∀ j, (j ≤ length s)%nat → k (drop j s) = None) → star_lazy cls s k = None.
Proof.
  induction s as [|c s IH]; intros Hk.
  - pose proof (Hk 0%nat ltac:(simpl; lia)) as H0. simpl in *. by rewrite H0.
  - cbn [star_lazy].
    pose proof (Hk 0%nat ltac:(simpl; lia)) as H0. simpl in H0. rewrite H0.
    destruct (cls c); [|done]. apply IH.
    intros j Hj. apply (Hk (S j)). simpl. lia.
Qed.

(** A match hands only suffixes of its input to what follows it. *)
Lemma rmatch_suffixes r s g (k : str → option str → option A) :
  (∀ s' g', s' `suffix_of` s → k s' g' = None) → rmatch r s g k = None.
Proof.
  revert s g k. induction r as [p|r1 IH1 r2 IH2|r1 IH1|cls|cls|r1 IH1];
    intros s g k Hk; cbn [rmatch].
  - destruct (startswith p s); [|done]. apply Hk, suffix_drop.
  - apply IH1. intros s1 g1 H1. apply IH2. intros s2 g2 H2.
    apply Hk. by etrans.
  - rewrite IH1 by done. by apply Hk.
  - apply star_greedy_none. intros j _. apply Hk, suffix_drop.
  - apply star_lazy_none. intros j _. apply Hk, suffix_drop.
  - apply IH1. intros s1 g1 H1. by apply Hk.
Qed.
End MatcherSuffixes.

Lemma re_search_none r s :
  (∀ s', s' `suffix_of` s → rmatch r s' None (fun _ g => Some g) = None) →
  re_search r s = None.
Proof.
  induction s as [|c s IH]; intros H.
  - simpl. by rewrite (H []).
  - cbn [re_search]. rewrite (H (c :: s)) by done.
    apply IH. intros s' Hs'. apply H. by apply suffix_cons_r.
Qed.

Lemma startswith_absent c p s : c ∉ s → startswith (c :: p) s = false.
Proof.
  intros Hc. destruct s as [|x s]; [done|]. simpl.
  destruct (c =? x) eqn:E; [|done]. apply N.eqb_eq in E. subst.
  exfalso. apply Hc. left.
Qed.

Lemma suffix_absent (c : char) (s' s : str) : s' `suffix_of` s → c ∉ s → c ∉ s'.
Proof. intros [k ->] H Hin. apply H, elem_of_app. by right. Qed.

Lemma find_absent c s : find c s = None → c ∉ s.
Proof.
  induction s as [|x s IH]; simpl; [intros _; apply not_elem_of_nil|].
  destruct (x =? c) eqn:E; [done|]. apply N.eqb_neq in E.
  destruct (find c s); [done|]. intros _.
  apply not_elem_of_cons. split; [done|by apply IH].
Qed.

Lemma fenced_object_needs_brace text :
  find 123 text = None → re_search thinking_ReAct.fenced_object_pattern text = None.
Proof.
  intros H%find_absent. apply re_search_none. intros s0 H0.
  unfold thinking_ReAct.fenced_object_pattern.
  rewrite rmatch_seq. apply rmatch_suffixes. intros s1 g1 H1.
  rewrite rmatch_seq. apply rmatch_suffixes. intros s2 g2 H2.
  rewrite rmatch_seq. apply rmatch_suffixes. intros s3 g3 H3.
  rewrite rmatch_seq, rmatch_group, rmatch_seq, rmatch_lit.
  change (lit "{") with [123].
  rewrite (startswith_absent 123 [] s3); [done|].
  eapply suffix_absent; [|exact H]. by repeat (etrans; [eassumption|]).
Qed.

(** X2: a text without an opening brace gives [extract_json_from_text]
    nothing to find: the result is the text decoded as a whole, or
    [None] when it is no JSON text. *)
Theorem extract_json_from_text_needs_brace (text : str) :
  find 123 text = None →
  thinking_ReAct.extract_json_from_text text = default JNull (json_loads text).
Proof.
  intros H. unfold thinking_ReAct.extract_json_from_text.
  destruct (bool_decide (text = [])) eqn:E.
  - apply bool_decide_eq_true in E. by subst.
  - destruct (json_loads text); [done|].
    by rewrite fenced_object_needs_brace, H.
Qed.

Lemma extract_json_from_text_needs_brace_witness :
  find 123 (lit "search for [1]") = None
  ∧ thinking_ReAct.extract_json_from_text (lit "search for [1]")
    = default JNull (json_loads (lit "search for [1]")).
Proof.
  split; [reflexivity|].
  apply (extract_json_from_text_needs_brace (lit "search for [1]")). reflexivity.
Defined.









(** ** The brace count *)

Lemma bracket_scan_complete (rest : str) (count : Z) (k j : nat) :
  (j < length rest)%nat →
  (count + depth (take (S j) rest) = 0)%Z →
  (∀ m, (m < j)%nat → (count + depth (take (S m) rest) ≠ 0)%Z) →
  thinking_ReAct.bracket_scan rest count k = Some (k + j)%nat.
Proof.
  revert count k j. induction rest as [|c rest IH]; intros count k j Hj Hz Hm.
  { simpl in Hj. lia. }
  cbn [thinking_ReAct.bracket_scan].
  remember (if (c =? 123)%N then 1%Z else if (c =? 125)%N then (-1)%Z else 0%Z)
    as delta eqn:Hdelta.
  assert ((if c =? 123 then (count + 1)%Z
           else if c =? 125 then (count - 1)%Z else count) = (count + delta)%Z) as ->.
  { rewrite Hdelta. destruct (c =? 123); [done|].
    destruct (c =? 125); [done|]. by rewrite Z.add_0_r. }
  assert (∀ i, depth (take (S i) (c :: rest)) = (delta + depth (take i rest))%Z) as Hd.
  { intros i. rewrite Hdelta. reflexivity. }
  clear Hdelta.
  destruct j as [|j].
  - rewrite Hd, take_0 in Hz. cbn [depth] in Hz.
    replace (count + delta =? 0)%Z with true by (symmetry; apply Z.eqb_eq; lia).
    f_equal. lia.
  - pose proof (Hm 0%nat ltac:(lia)) as H0. rewrite Hd, take_0 in H0. cbn [depth] in H0.
    replace (count + delta =? 0)%Z with false by (symmetry; apply Z.eqb_neq; lia).
    rewrite (IH _ _ j).
    + f_equal. lia.
    + simpl in Hj. lia.
    + rewrite Hd in Hz. lia.
    + intros m Hlt. specialize (Hm (S m) ltac:(lia)). rewrite Hd in Hm. lia.
Qed.

Lemma bracket_scan_bound (rest : str) (count : Z) (k n : nat) :
  thinking_ReAct.bracket_scan rest count k = Some n → (n < k + length rest)%nat.
Proof.
  revert count k. induction rest as [|c rest IH]; intros count k; [done|].
  cbn [thinking_ReAct.bracket_scan].
  match goal with |- context [(?x =? 0)%Z] => destruct (x =? 0)%Z end.
  - intros [= <-]. simpl. lia.
  - intros H%IH. simpl. lia.
Qed.

(** X4: the brace count of [extract_json_from_text] stops exactly at
    the first position where as many braces have closed as have
    opened, wherever the braces stand (also inside strings); it finds
    nothing exactly when there is no such position. *)
Theorem bracket_scan_first_balanced (rest : str) (n : nat) :
  thinking_ReAct.bracket_scan rest 0 0 = Some n
  ↔ (n < length rest)%nat
    ∧ depth (take (S n) rest) = 0%Z
    ∧ ∀ m, (m < n)%nat → depth (take (S m) rest) ≠ 0%Z.
Proof.
  split.
  - intros H. pose proof (bracket_scan_bound _ _ _ _ H) as Hb.
    apply bracket_scan_spec in H as (_ & Hz & Hm).
    rewrite Nat.sub_0_r in Hz, Hm. split; [lia|]. split; [lia|].
    intros m Hlt. specialize (Hm m Hlt). lia.
  - intros (Hn & Hz & Hm).
    apply (bracket_scan_complete rest 0 0 n Hn); [lia|].
    intros m Hlt. specialize (Hm m Hlt). lia.
Qed.

(** ** A decoded object needs a brace *)

Lemma idle_step_tokens c st toks :
  idle_step c = Some (st, toks) → holds_scalar st ∧ tokens_of c toks.
Proof.
  unfold idle_step, tokens_of. intros H.
  repeat case_match; simplify_eq; (split; [done|]);
    repeat constructor; try done.
  intros _. by apply N.eqb_eq.
Qed.

Lemma emit_then_tokens v c st toks :
  scalar v → emit_then v c = Some (st, toks) → holds_scalar st ∧ tokens_of c toks.
Proof.
  unfold emit_then. intros Hv H.
  destruct (idle_step c) as [[st0 toks0]|] eqn:E; [|done]. simplify_eq.
  destruct (idle_step_tokens _ _ _ E) as [? ?]. split; [done|].
  constructor; [|done]. split; [done|]. done.
Qed.

Lemma str_step_tokens acc c st toks :
  str_step acc c = Some (st, toks) → holds_scalar st ∧ tokens_of c toks.
Proof.
  unfold str_step, tokens_of. intros H.
  repeat case_match; simplify_eq; (split; [done|]); repeat constructor; done.
Qed.

Lemma esc_step_tokens acc c st toks :
  esc_step acc c = Some (st, toks) → holds_scalar st ∧ tokens_of c toks.
Proof.
  unfold esc_step, tokens_of. intros H.
  repeat case_match; simplify_eq; (split; [done|]); repeat constructor; done.
Qed.

Lemma step_tokens st c st' toks :
  holds_scalar st → step st c = Some (st', toks) →
  holds_scalar st' ∧ tokens_of c toks.
Proof.
  intros Hst H. destruct st; cbn [step] in H;
    try (by eapply idle_step_tokens);
    try (by eapply str_step_tokens);
    try (by eapply esc_step_tokens);
    repeat case_match; simplify_eq;
    try (by eapply str_step_tokens);
    try (by eapply esc_step_tokens);
    try (eapply emit_then_tokens; [|eassumption]; done);
    try (split; [done|by constructor]).
  all: split; [done|]; repeat constructor; done.
Qed.

Lemma lex_tokens st s toks :
  holds_scalar st → lex st s = Some toks →
  Forall scalar_token toks ∧ (TLBrace ∈ toks → 123 ∈ s).
Proof.
  revert st toks. induction s as [|c s IH]; intros st toks Hst; cbn [lex].
  - intros H. destruct st; simpl in H; simplify_eq; split;
      try (by repeat constructor);
      intros Hin; repeat (apply elem_of_cons in Hin as [?|Hin]; [done|]);
      by apply elem_of_nil in Hin.
  - destruct (step st c) as [[st1 toks1]|] eqn:E; [|done].
    destruct (lex st1 s) as [rest|] eqn:Hl; [|done]. intros [= <-].
    destruct (step_tokens _ _ _ _ Hst E) as [Hst1 H1].
    destruct (IH _ _ Hst1 Hl) as [H2 H3]. split.
    + apply Forall_app. split; [|done].
      eapply Forall_impl; [exact H1|]. by intros t [? _].
    + intros [Hin|Hin]%elem_of_app.
      * eapply Forall_forall in H1 as [_ ->]; [|done|done]. left.
      * right. by apply H3.
Qed.

Lemma parse_elems_array f ts acc v r :
  parse_elems f ts acc = Some (v, r) → ∃ l, v = JArr l.
Proof.
  revert ts acc. induction f as [|f IH]; intros ts acc; [done|].
  cbn [parse_elems]. intros H.
  repeat case_match; simplify_eq; eauto.
Qed.

Lemma parse_value_object f ts d r :
  Forall scalar_token ts →
  parse_value f ts = Some (JObj d, r) → head ts = Some TLBrace.
Proof.
  intros Hts H. destruct f as [|f]; [done|]. cbn [parse_value] in H.
  destruct ts as [|t ts]; [done|]. destruct t; try done.
  - repeat case_match; simplify_eq.
    all: match goal with
         | H : parse_elems _ _ _ = Some _ |- _ =>
             by destruct (parse_elems_array _ _ _ _ _ H)
         end.
  - apply Forall_cons in Hts as [Hv _]. repeat case_match; by simplify_eq.
Qed.

(** Only a text with an opening brace decodes to an object. *)
Lemma json_loads_object_brace s d : json_loads s = Some (JObj d) → 123 ∈ s.
Proof.
  unfold json_loads. destruct (lex LIdle s) as [ts|] eqn:Hl; [|done].
  destruct (lex_tokens LIdle _ _ I Hl) as [Hts Hin].
  destruct (parse_value _ ts) as [[v r]|] eqn:Hp; [|done].
  destruct r; [|done]. intros [= ->].
  apply parse_value_object in Hp; [|done].
  apply Hin. destruct ts; simplify_eq/=. left.
Qed.

Section MatcherCaptures.
Context {A : Type}.

(** What a match captures is a part of its input. *)
Lemma rmatch_captures r s g (k : str → option str → option A) x :
  rmatch r s g k = Some x →
  ∃ s' g', s' `suffix_of` s ∧ k s' g' = Some x
           ∧ (g' = g ∨ ∃ t, g' = Some t ∧ t ⊆ s).
Proof.
  revert s g k. induction r as [p|r1 IH1 r2 IH2|r1 IH1|cls|cls|r1 IH1];
    intros s g k; cbn [rmatch].
  - destruct (startswith p s); [|done]. intros H.
    exists (drop (length p) s), g. split; [apply suffix_drop|]. by split; [|left].
  - intros (s1 & g1 & Hs1 & (s2 & g2 & Hs2 & Hk & Hg2)%IH2 & Hg1)%IH1.
    exists s2, g2. split; [by etrans|]. split; [done|].
    destruct Hg2 as [->|(t & -> & Ht)]; [done|].
    right. exists t. split; [done|]. intros c Hc.
    destruct Hs1 as [pre ->]. apply elem_of_app. right. by apply Ht.
  - destruct (rmatch r1 s g k) eqn:E.
    + intros [= ->]. by apply IH1.
    + intros H. exists s, g. by split; [|split; [|left]].
  - intros (j & _ & Hk)%star_greedy_result.
    exists (drop j s), g. split; [apply suffix_drop|]. by split; [|left].
  - intros (j & _ & Hk)%star_lazy_result.
    exists (drop j s), g. split; [apply suffix_drop|]. by split; [|left].
  - intros (s1 & g1 & Hs1 & Hk & _)%IH1.
    exists s1, (Some (take (length s - length s1) s)). split; [done|].
    split; [done|]. right. eexists. split; [done|]. apply subseteq_take.
Qed.
End MatcherCaptures.

Lemma re_search_captures r s m : re_search r s = Some m → group1 m ⊆ s.
Proof.
  induction s as [|c s IH]; cbn [re_search].
  - destruct (rmatch r [] None _) eqn:E; [|done]. intros [= ->].
    apply rmatch_captures in E as (s' & g' & _ & [= <-] & [->|(t & -> & Ht)]);
      [intros x Hx; by apply elem_of_nil in Hx|done].
  - destruct (rmatch r (c :: s) None _) eqn:E.
    + intros [= ->].
      apply rmatch_captures in E as (s' & g' & _ & [= <-] & [->|(t & -> & Ht)]);
        [intros x Hx; by apply elem_of_nil in Hx|done].
    + intros H%IH. intros x Hx. right. by apply H.
Qed.

Lemma strip_subseteq (s : str) : strip s ⊆ s.
Proof.
  unfold strip. destruct (lstrip_spec s) as (w1 & H1 & _).
  destruct (rstrip_spec (lstrip s)) as (w2 & H2 & _).
  intros x Hx. rewrite H1, H2, !elem_of_app. auto.
Qed.

Lemma searched_object r s m d :
  re_search r s = Some m → json_loads (group1 m) = Some (JObj d) → 123 ∈ s.
Proof.
  intros Hm%re_search_captures Hd%json_loads_object_brace. by apply Hm.
Qed.

Lemma find_found c s start : find c s = Some start → c ∈ s.
Proof.
  revert start. induction s as [|x s IH]; intros start; [done|]. simpl.
  destruct (x =? c) eqn:E.
  - apply N.eqb_eq in E. subst. intros _. left.
  - destruct (find c s); [|done]. intros _. right. by eapply IH.
Qed.

(** [extract_json_from_text] finds an object only in a text with an
    opening brace. *)
Lemma extract_json_from_text_object text d :
  thinking_ReAct.extract_json_from_text text = JObj d → 123 ∈ text.
Proof.
  unfold thinking_ReAct.extract_json_from_text.
  destruct (bool_decide (text = [])); [done|].
  destruct (json_loads text) as [v|] eqn:H1.
  { intros ->. by eapply json_loads_object_brace. }
  destruct (re_search thinking_ReAct.fenced_object_pattern text) as [m|] eqn:Hm.
  - destruct (json_loads (group1 m)) as [v|] eqn:H2.
    { intros ->. by eapply searched_object. }
    destruct (find 123 text) as [start|] eqn:Hf; [|done]. intros _.
    by eapply find_found.
  - destruct (find 123 text) as [start|] eqn:Hf; [|done]. intros _.
    by eapply find_found.
Qed.

(** [extract_json_from_response] returns an object only for a content
    with an opening brace, the default apart. *)
Lemma extract_json_from_response_object content default d :
  research_exa.extract_json_from_response content default = JObj d →
  default = JObj d ∨ 123 ∈ content.
Proof.
  unfold research_exa.extract_json_from_response.
  destruct (bool_decide (content = [])); [by left|].
  pose proof (strip_subseteq content) as Hs.
  destruct (json_loads (strip content)) as [v|] eqn:H1.
  { intros ->. right. by eapply Hs, json_loads_object_brace. }
  repeat match goal with
  | |- context [re_search ?r (strip content)] =>
      let m := fresh "m" in let Hm := fresh "Hm" in
      destruct (re_search r (strip content)) as [m|] eqn:Hm;
      [let H2 := fresh "H" in
       destruct (json_loads (group1 m)) as [?|] eqn:H2;
       [intros ->; right; by eapply Hs, searched_object|]|]
  end; by left.
Qed.

(** ** The search queries *)

(** X5: [generate_search_queries] takes queries from the model only
    out of a JSON object: for a reply without an opening brace (plain
    text, or a bare JSON array of queries) it returns the one-element
    list of the main query. *)
Theorem generate_search_queries_needs_object (main_query content : str) :
  find 123 content = None →
  research_exa.generate_search_queries main_query (Some content)
  = JArr [JStr main_query].
Proof.
  intros Hf%find_absent. unfold research_exa.generate_search_queries.
  cbn [mbind option_bind].
  destruct (research_exa.extract_json_from_response (strip content) JNull)
    as [| | | | | |d] eqn:E; try reflexivity.
  apply extract_json_from_response_object in E as [E|E]; [done|].
  by apply strip_subseteq in E.
Qed.

Lemma generate_search_queries_needs_object_witness :
  research_exa.generate_search_queries (lit "llm agents")
    (Some (jlit "['agent memory', 'tool use']"))
  = JArr [JStr (lit "llm agents")].
Proof.
  apply (generate_search_queries_needs_object (lit "llm agents")
           (jlit "['agent memory', 'tool use']")).
  reflexivity.
Defined.

(** ** The session state *)

Lemma init_key_old key value (session : research_exa.session_state) k v :
  session !! k = Some v → research_exa.init_key key value session !! k = Some v.
Proof.
  intros H. unfold research_exa.init_key, research_exa.session_state in *.
  case_bool_decide as Hk; [done|].
  destruct (decide (key = k)) as [->|Hne].
  - destruct Hk. by rewrite H.
  - by rewrite lookup_insert_ne.
Qed.

Lemma init_key_set key value (session : research_exa.session_state) :
  is_Some (research_exa.init_key key value session !! key).
Proof.
  unfold research_exa.init_key, research_exa.session_state in *.
  case_bool_decide as Hk; [done|]. by rewrite lookup_insert_eq.
Qed.

Lemma init_key_fixed key value (session : research_exa.session_state) :
  is_Some (session !! key) → research_exa.init_key key value session = session.
Proof. intros H. unfold research_exa.init_key. by rewrite bool_decide_eq_true_2. Qed.

Lemma init_key_other key value (session : research_exa.session_state) k :
  k ≠ key → research_exa.init_key key value session !! k = session !! k.
Proof.
  intros H. unfold research_exa.init_key, research_exa.session_state in *.
  case_bool_decide; [done|]. by rewrite lookup_insert_ne.
Qed.

Lemma init_key_keeps key value (session : research_exa.session_state) k :
  is_Some (session !! k) → is_Some (research_exa.init_key key value session !! k).
Proof. intros [v H]. exists v. by apply init_key_old. Qed.

(** X6: [init_research_session] only fills in what is missing: every
    key that is set keeps its value, every other key but the six of
    the session stays unset, the six keys are set afterwards, and a
    second call changes nothing. *)
Theorem init_research_session_fills_in (session : research_exa.session_state) :
  let keys := lit <$> ["research_query"; "research_steps"; "current_research";
                       "research_depth"; "max_sources_per_step";
                       "research_in_progress"]%string in
  (∀ k v, session !! k = Some v →
          research_exa.init_research_session session !! k = Some v)
  ∧ (∀ k, k ∉ keys → research_exa.init_research_session session !! k = session !! k)
  ∧ Forall (fun k => is_Some (research_exa.init_research_session session !! k)) keys
  ∧ research_exa.init_research_session (research_exa.init_research_session session)
    = research_exa.init_research_session session.
Proof.
  intros keys.
  assert (Hset : Forall (fun k => is_Some (research_exa.init_research_session session !! k))
                   keys).
  { unfold research_exa.init_research_session. cbv zeta.
    repeat (apply Forall_cons; split;
            [repeat first [apply init_key_set | apply init_key_keeps]|]).
    constructor. }
  split; [|split; [|split; [done|]]].
  - intros k v H. unfold research_exa.init_research_session. cbv zeta.
    by repeat apply init_key_old.
  - intros k Hk. unfold research_exa.init_research_session. cbv zeta.
    rewrite !init_key_other; [done|..];
      intros ->; apply Hk; unfold keys; simpl; set_solver.
  - remember (research_exa.init_research_session session) as s eqn:Hs.
    unfold research_exa.init_research_session at 1. cbv zeta.
    unfold keys in Hset. cbn [fmap list_fmap] in Hset.
    rewrite !Forall_cons in Hset. destruct Hset as (H1 & H2 & H3 & H4 & H5 & H6 & _).
    rewrite (init_key_fixed (lit "research_query")) by done.
    rewrite (init_key_fixed (lit "research_steps")) by done.
    rewrite (init_key_fixed (lit "current_research")) by done.
    rewrite (init_key_fixed (lit "research_depth")) by done.
    rewrite (init_key_fixed (lit "max_sources_per_step")) by done.
    by rewrite (init_key_fixed (lit "research_in_progress")).
Qed.

(** ** The time stamps of a loaded session *)

Lemma load_steps_timestamps (clock : nat → str) n items steps :
  research_exa.load_steps clock n items = Some steps →
  research_exa.timestamp <$> steps
  = (fun i => JStr (clock i)) <$> seq n (length steps).
Proof.
  revert n steps. induction items as [|step_data items IH]; intros n steps.
  - by intros [= <-].
  - cbn [research_exa.load_steps].
    destruct (research_exa.load_step (clock n) step_data) as [step|] eqn:Hs; [|done].
    cbn [mbind option_bind].
    destruct (research_exa.load_steps clock (S n) items) as [rest|] eqn:Hr; [|done].
    intros [= <-]. cbn [fmap list_fmap length seq]. f_equal; [|by apply IH].
    unfold research_exa.load_step in Hs.
    repeat (match type of Hs with
            | context [?x ≫= _] => destruct x; cbn [mbind option_bind] in Hs
            end; [|done]).
    by injection Hs as <-.
Qed.

(** X7: [load_research] never reads the time stamp stored with a
    step: the [i]-th step it returns carries the reading of the clock
    at which it was rebuilt. *)
Theorem load_research_timestamps (clock : nat → str)
    (fs : research_exa.filesystem) (filename : str)
    (query : json) (steps : list research_exa.ResearchStep) :
  research_exa.load_research clock fs filename = Some (query, steps) →
  research_exa.timestamp <$> steps
  = (fun i => JStr (clock i)) <$> seq 1 (length steps).
Proof.
  unfold research_exa.load_research. cbv zeta. intros H.
  repeat (match type of H with
          | context [?x ≫= _] =>
              let E := fresh "E" in destruct x eqn:E; cbn [mbind option_bind] in H
          end; [|done]).
  injection H as <- <-. by eapply load_steps_timestamps.
Qed.

Lemma load_research_timestamps_witness :
  let clock := fun n : nat => [48 + N.of_nat n] in
  let fs : research_exa.filesystem :=
    {[ lit "output/DeepResearch/r.json" :=
         jlit "{'query': 'q', 'steps': [{'query': 'a', 'step_type': 'search', 'timestamp': 'old'}]}" ]} in
  ∃ query steps,
    research_exa.load_research clock fs (lit "r.json") = Some (query, steps)
    ∧ research_exa.timestamp <$> steps = [JStr (lit "1")].
Proof.
  intros clock fs. eexists _, _.
  assert (H : research_exa.load_research clock fs (lit "r.json") = Some (_, _))
    by (vm_compute; reflexivity).
  split; [exact H|].
  exact (load_research_timestamps clock fs (lit "r.json") _ _ H).
Defined.

(** ** What a run of the agent costs, and how it ends *)

Section AgentRuns.
Import thinking_ReAct.
Variable call_llm_step : nat → list message → str * str.
Variable tools_search : json → str.
Variable tools_visit : json → str.
Variable json_dumps : json → str.
Variable format : json → str.

Local Abbreviation round := (round call_llm_step tools_search tools_visit json_dumps format).
Local Abbreviation loop := (loop call_llm_step tools_search tools_visit json_dumps format).
Local Abbreviation run :=
  (run_gemini_simulation call_llm_step tools_search tools_visit json_dumps format).
Local Abbreviation reachable :=
  (reachable call_llm_step tools_search tools_visit json_dumps format).
Local Abbreviation reply st := (call_llm_step (step st) (messages st)).

(** A round sends the history to the model once, calls one tool at
    most and appends two messages at most. *)
Lemma round_effect st st' :
  (round st = Next st' ∨ ∃ e, round st = Exit e st') →
  ∃ new tools,
    st' = after_round st new tools
    ∧ (length new ≤ 2)%nat ∧ (length tools ≤ 1)%nat
    ∧ Forall (fun e => is_llm_call e = false) tools.
Proof.
  intros H. rewrite round_unfold in H. cbv zeta in H. unfold after_round.
  repeat case_match; destruct H as [H | [e H]]; simplify_eq;
    first
      [ by exists [], []; rewrite !app_nil_r; repeat split; simpl; try lia
      | by eexists [_], []; rewrite !app_nil_r; repeat split; simpl; try lia
      | by eexists [_; _], []; rewrite !app_nil_r; repeat split; simpl; try lia
      | by eexists [_; _], [_]; rewrite <- ?(assoc_L (++));
           repeat split; simpl; try lia; repeat constructor ].
Qed.

Lemma round_within_bounds user_query st st' :
  within_bounds user_query st →
  (round st = Next st' ∨ ∃ e, round st = Exit e st') →
  within_bounds user_query st'.
Proof.
  intros (Hm & Ht & Hp & Hh) (new & tools & -> & Hnew & Htools & Hno)%round_effect.
  unfold within_bounds, after_round. cbn [messages step trace].
  rewrite !length_app. cbn [length]. split; [lia|]. split; [lia|].
  split; [by apply prefix_app_r|].
  rewrite !Forall_app. split; [|split].
  - eapply Forall_impl; [exact Hh|]. intros [h| |]; try done.
    intros [? ?]. split; [done|]. by apply prefix_app_r.
  - constructor; [|done]. split; [done|]. by apply prefix_app_r.
  - eapply Forall_impl; [exact Hno|]. by intros [h| |].
Qed.

Lemma loop_within_bounds user_query fuel st e st' :
  within_bounds user_query st → loop fuel st = Some (e, st') →
  within_bounds user_query st'.
Proof.
  revert st. induction fuel as [|fuel IH]; intros st Hst; simpl.
  - destruct (step st <? max_steps)%nat; [done|]. by intros [= <- <-].
  - destruct (step st <? max_steps)%nat; [|by intros [= <- <-]].
    destruct (round st) as [st1|e1 st1] eqn:Hr.
    + apply IH. eapply round_within_bounds; [done|by left].
    + intros [= <- <-]. eapply round_within_bounds; [done|]. right. by exists e1.
Qed.

(** X8: a run always ends, after seven rounds at most, with one LLM
    call a round, a trace of at most two calls a round and a history
    of at most two messages more than twice its rounds (sixteen in
    all); every history the model was sent starts with the system
    prompt and the user's query and is the beginning of the final
    one. *)
Theorem run_gemini_simulation_bounds (user_query : str) :
  ∃ e st',
    run user_query = Some (e, st')
    ∧ (step st' ≤ 7)%nat
    ∧ llm_calls (trace st') = step st'
    ∧ (length (messages st') ≤ 2 + 2 * step st')%nat
    ∧ (length (trace st') ≤ 2 * step st')%nat
    ∧ Forall (fun ev =>
        match ev with
        | LLMCall history =>
            [Message (lit "system") system_prompt; Message (lit "user") user_query]
              `prefix_of` history
            ∧ history `prefix_of` messages st'
        | _ => True
        end) (trace st').
Proof.
  destruct (loop_terminates call_llm_step tools_search tools_visit json_dumps format
              max_steps (initial_state user_query))
    as (e & st' & Hl & _ & H2 & H3 & _); [simpl; unfold max_steps; lia|].
  exists e, st'. split; [done|].
  assert (within_bounds user_query (initial_state user_query)) as H0.
  { unfold within_bounds. simpl. repeat split; try lia; done. }
  destruct (loop_within_bounds _ _ _ _ _ H0 Hl) as (Hm & Ht & _ & Hh).
  simpl in H2, H3. unfold max_steps in H2.
  split; [lia|]. split; [|done]. rewrite H3. unfold llm_calls. simpl. lia.
Qed.





(** X10: a reply without an opening brace, in the content and in the
    reasoning, never makes the agent call a tool or answer: the round
    ends the run on the empty reply or on the [AttributeError], or it
    asks for JSON again. *)
Theorem round_without_brace (st : state) :
  find 123 (reply st).1 = None →
  find 123 (reply st).2 = None →
  round st = Exit EmptyResponse (after_round st [] [])
  ∨ round st = Next (after_round st [parse_error_message] [])
  ∨ round st = Exit AttributeError (after_round st [] []).
Proof.
  intros H1%find_absent H2%find_absent.
  assert (∀ d, decision_of (reply st) ≠ JObj d) as Hd.
  { intros d. unfold decision_of.
    destruct (truthy _); intros E%extract_json_from_text_object; done. }
  destruct (bool_decide ((reply st).1 = []) && bool_decide ((reply st).2 = [])) eqn:He.
  { left. rewrite round_unfold. cbv zeta. rewrite He.
    unfold after_round. by rewrite !app_nil_r. }
  right. destruct (truthy (decision_of (reply st))) eqn:Ht.
  - right. by apply round_non_object.
  - left. apply round_no_decision; [|done].
    apply andb_false_iff in He as [He|He]; apply bool_decide_eq_false in He; auto.
Qed.
End AgentRuns.


Lemma round_without_brace_witness :
  thinking_ReAct.round (fun _ _ => (lit "[1]", []))
    (fun _ => []) (fun _ => []) (fun _ => []) (fun _ => [])
    (thinking_ReAct.initial_state (lit "q"))
  = thinking_ReAct.Exit thinking_ReAct.AttributeError
      (after_round (thinking_ReAct.initial_state (lit "q")) [] []).
Proof.
  destruct (round_without_brace (fun _ _ => (lit "[1]", []))
              (fun _ => []) (fun _ => []) (fun _ => []) (fun _ => [])
              (thinking_ReAct.initial_state (lit "q")))
    as [H|[H|H]]; [reflexivity|reflexivity|..]; [| |exact H];
    exfalso; revert H; vm_compute; discriminate.
Defined.

(** ** The streamed reply *)

Section StreamFacts.
Import thinking_ReAct.

Lemma payload_nil : payload [] = [].
Proof. reflexivity. Qed.

(** X11: the lines after the end mark of the stream are never read:
    [call_llm_step] returns what it returns for the lines before the
    first line that is [[DONE]], with or without the [data: ] prefix
    and whitespace around it. *)
Theorem call_llm_step_done (status_code : Z) (before after : list str) (line : str) :
  strip (payload line) = lit "[DONE]" →
  call_llm_step (Response status_code (before ++ line :: after))
  = call_llm_step (Response status_code before).
Proof.
  intros Hd.
  assert (Hne : line ≠ []).
  { intros ->. by rewrite payload_nil in Hd. }
  assert (∀ st, read_lines (before ++ line :: after) st = read_lines before st) as Hread.
  { induction before as [|l before IH]; intros st; cbn [app read_lines]; cbv zeta.
    - rewrite (bool_decide_eq_false_2 _ Hne). by rewrite (bool_decide_eq_true_2 _ Hd).
    - by repeat case_match. }
  unfold call_llm_step. by rewrite Hread.
Qed.

Lemma process_chunk_skipped st s :
  json_loads s ≫= chunk_delta = None → process_chunk st s = st.
Proof. intros H. unfold process_chunk. by rewrite H. Qed.

(** X12: a line that carries no delta does not change the reply: an
    empty keep-alive line, or a line whose text is no JSON, is a JSON
    value without choices, or has an empty list of choices or no
    [delta] in the first choice.  [call_llm_step] returns what it
    returns without the line. *)
Theorem call_llm_step_skips (status_code : Z) (before after : list str) (line : str) :
  line = []
  ∨ strip (payload line) ≠ lit "[DONE]"
    ∧ json_loads (payload line) ≫= chunk_delta = None →
  call_llm_step (Response status_code (before ++ line :: after))
  = call_llm_step (Response status_code (before ++ after)).
Proof.
  intros H.
  assert (∀ st, read_lines (before ++ line :: after) st = read_lines (before ++ after) st)
    as Hread.
  { induction before as [|l before IH]; intros st; cbn [app read_lines]; cbv zeta.
    - destruct H as [->|[Hd Hs]]; [done|].
      case_bool_decide; [done|].
      rewrite (bool_decide_eq_false_2 _ Hd). by rewrite process_chunk_skipped.
    - by repeat case_match. }
  unfold call_llm_step. by rewrite Hread.
Qed.

Lemma join_strings_snoc parts text s :
  join_strings parts = Some text →
  join_strings (parts ++ [JStr s]) = Some (text ++ s).
Proof.
  revert text. induction parts as [|v parts IH]; intros text; simpl.
  - intros [= <-]. by rewrite app_nil_r.
  - destruct v; try done. destruct (join_strings parts) as [rest|]; [|done].
    intros [= <-]. rewrite (IH rest eq_refl). simpl. by rewrite (assoc_L (++)).
Qed.

Lemma append_delta_textual k d acc text :
  textual k d → join_strings acc = Some text →
  ∃ acc', append_delta k (JObj d) acc = Some acc'
          ∧ join_strings acc' = Some (text ++ text_field k d).
Proof.
  unfold textual, text_field, append_delta, py_in, research_exa.subscript.
  intros Ht Hj. destruct (dict_lookup k d) as [v|] eqn:E.
  - rewrite bool_decide_eq_true_2 by done. cbn [mbind option_bind].
    destruct v; try (rewrite Ht; exists acc; by rewrite app_nil_r).
    cbn [truthy]. case_bool_decide as Hs; cbn [negb].
    + subst. exists acc. by rewrite app_nil_r.
    + eexists. split; [done|]. by apply join_strings_snoc.
  - rewrite bool_decide_eq_false_2 by (by intros [? ?]).
    exists acc. by rewrite app_nil_r.
Qed.

Lemma read_lines_carried lines deltas st content reasoning :
  Forall2 carries lines deltas →
  join_strings (full_content st) = Some content →
  join_strings (full_reasoning st) = Some reasoning →
  join_strings (full_content (read_lines lines st))
  = Some (content ++ concat (text_field (lit "content") <$> deltas))
  ∧ join_strings (full_reasoning (read_lines lines st))
    = Some (reasoning ++ concat (text_field (lit "reasoning_content") <$> deltas)).
Proof.
  intros H. revert st content reasoning.
  induction H as [|line d lines deltas (Hne & Hd & Hc & Ht1 & Ht2) _ IH];
    intros st content reasoning Hjc Hjr.
  - simpl. by rewrite !app_nil_r.
  - cbn [read_lines]. cbv zeta.
    rewrite (bool_decide_eq_false_2 _ Hne), (bool_decide_eq_false_2 _ Hd).
    destruct (append_delta_textual _ _ _ _ Ht2 Hjr) as (r' & Hr1 & Hr2).
    destruct (append_delta_textual _ _ _ _ Ht1 Hjc) as (c' & Hc1 & Hc2).
    unfold process_chunk. rewrite Hc, Hr1, Hc1.
    destruct (IH (Stream c' r') _ _ Hc2 Hr2) as [-> ->].
    cbn [fmap list_fmap concat]. by rewrite !(assoc_L (++)).
Qed.

(** X13: when every line of the stream carries a well-formed chunk
    (an object with a non-empty list of choices whose first choice
    has a [delta] object, its [content] and [reasoning_content] each
    a string, [null] or missing), [call_llm_step] returns the contents
    of the deltas joined in order, and their reasoning joined in
    order. *)
Theorem call_llm_step_joins_deltas (lines : list str)
    (deltas : list (list (str * json))) :
  Forall2 carries lines deltas →
  call_llm_step (Response 200 lines)
  = Some (concat (text_field (lit "content") <$> deltas),
          concat (text_field (lit "reasoning_content") <$> deltas)).
Proof.
  intros H. unfold call_llm_step. cbn [Z.eqb Pos.eqb negb]. cbv zeta.
  destruct (read_lines_carried lines deltas (Stream [] []) [] [] H eq_refl eq_refl)
    as [-> ->].
  reflexivity.
Qed.
End StreamFacts.

Lemma call_llm_step_done_witness :
  thinking_ReAct.call_llm_step
    (thinking_ReAct.Response 200
       ([jlit "data: {'choices': [{'delta': {'content': 'Hi'}}]}"]
          ++ lit "data: [DONE] "
          :: [jlit "data: {'choices': [{'delta': {'content': ' there'}}]}"]))
  = thinking_ReAct.call_llm_step
      (thinking_ReAct.Response 200
         [jlit "data: {'choices': [{'delta': {'content': 'Hi'}}]}"]).
Proof.
  apply (call_llm_step_done 200
           [jlit "data: {'choices': [{'delta': {'content': 'Hi'}}]}"]
           [jlit "data: {'choices': [{'delta': {'content': ' there'}}]}"]
           (lit "data: [DONE] ")).
  vm_compute. reflexivity.
Defined.

Lemma call_llm_step_skips_witness :
  thinking_ReAct.call_llm_step
    (thinking_ReAct.Response 200
       ([jlit "data: {'choices': [{'delta': {'content': 'Hi'}}]}"]
          ++ lit ": keep-alive"
          :: [jlit "data: {'choices': [{'delta': {'content': ' there'}}]}"]))
  = thinking_ReAct.call_llm_step
      (thinking_ReAct.Response 200
         ([jlit "data: {'choices': [{'delta': {'content': 'Hi'}}]}"]
            ++ [jlit "data: {'choices': [{'delta': {'content': ' there'}}]}"])).
Proof.
  apply (call_llm_step_skips 200
           [jlit "data: {'choices': [{'delta': {'content': 'Hi'}}]}"]
           [jlit "data: {'choices': [{'delta': {'content': ' there'}}]}"]
           (lit ": keep-alive")).
  right. split; [vm_compute; discriminate|vm_compute; reflexivity].
Defined.

Lemma call_llm_step_joins_deltas_witness :
  thinking_ReAct.call_llm_step
    (thinking_ReAct.Response 200
       [jlit "data: {'choices': [{'delta': {'reasoning_content': 'hm', 'content': null}}]}";
        jlit "data: {'choices': [{'delta': {'content': 'Hi'}}]}";
        jlit "{'choices': [{'delta': {'content': ' there'}, 'index': 0}]}"])
  = Some (lit "Hi there", lit "hm").
Proof.
  apply (call_llm_step_joins_deltas _
           [[(lit "reasoning_content", JStr (lit "hm")); (lit "content", JNull)];
            [(lit "content", JStr (lit "Hi"))];
            [(lit "content", JStr (lit " there"))]]).
  repeat constructor; try (vm_compute; discriminate); vm_compute; reflexivity.
Defined.

(** ** The refined text and the files of pdf2md *)

Section RefineFacts.
Import pdf2md.

Lemma read_stream_spec response full_content :
  read_stream response full_content
  = if existsb is_stream_error response then None
    else Some (full_content ++ concat (chunk_text <$> response)).
Proof.
  revert full_content. induction response as [|c response IH]; intros full_content.
  - simpl. by rewrite app_nil_r.
  - destruct c as [[content|]|]; cbn [read_stream existsb is_stream_error orb].
    + case_bool_decide as Hc; rewrite IH; destruct (existsb _ _); try done.
      * subst. done.
      * cbn [fmap list_fmap concat chunk_text]. by rewrite (assoc_L (++)).
    + rewrite IH. by destruct (existsb _ _).
    + done.
Qed.

(** X14: [refine_full_text_llm] returns the whole refined text or the
    raw text, never a part of the refinement: when the request fails,
    or the stream breaks at any chunk, the result is the raw text;
    otherwise it is the texts of the chunks in order (the empty text
    when the model streams nothing). *)
Theorem refine_full_text_llm_all_or_nothing
    (llm : str → option (list chunk)) (raw_markdown : str) :
  refine_full_text_llm llm raw_markdown
  = match llm raw_markdown with
    | Some response =>
        if existsb is_stream_error response then raw_markdown
        else concat (chunk_text <$> response)
    | None => raw_markdown
    end.
Proof.
  unfold refine_full_text_llm. destruct (llm raw_markdown) as [response|]; [|done].
  rewrite read_stream_spec. by destruct (existsb _ _).
Qed.

End RefineFacts.


(** ** Extensions, comment prefixes and the walk *)

Section ExtensionFacts.
Import merge_codebase_context.

Lemma rfind_dot_absent s i : 46 ∉ s → rfind_dot s i = None.
Proof.
  revert i. induction s as [|c s IH]; intros i H; [done|].
  apply not_elem_of_cons in H as [Hc Hs]. cbn [rfind_dot]. rewrite IH by done.
  destruct (c =? 46) eqn:E; [|done]. apply N.eqb_eq in E. congruence.
Qed.

Lemma rfind_dot_last stem ext i :
  46 ∉ ext → rfind_dot (stem ++ 46 :: ext) i = Some (i + length stem)%nat.
Proof.
  intros H. revert i. induction stem as [|c stem IH]; intros i.
  - cbn [app rfind_dot length]. rewrite rfind_dot_absent by done.
    cbn. f_equal. lia.
  - cbn [app rfind_dot length]. rewrite IH. f_equal. lia.
Qed.

(** A name with a dot splits at its last dot. *)
Lemma last_dot (name : str) :
  46 ∈ name → ∃ stem ext, name = stem ++ 46 :: ext ∧ 46 ∉ ext.
Proof.
  induction name as [|c name IH]; intros H; [by apply elem_of_nil in H|].
  destruct (decide (46 ∈ name)) as [Hin|Hnot].
  - destruct (IH Hin) as (stem & ext & -> & Hext). by exists (c :: stem), ext.
  - apply elem_of_cons in H as [<-|H]; [|done]. by exists [], name.
Qed.

Lemma splitext_ext_no_dot name : 46 ∉ name → splitext_ext name = [].
Proof. intros H. unfold splitext_ext. by rewrite rfind_dot_absent. Qed.

Lemma splitext_ext_last_dot stem ext :
  46 ∉ ext →
  splitext_ext (stem ++ 46 :: ext)
  = if forallb (fun c => c =? 46) stem then [] else 46 :: ext.
Proof.
  intros H. unfold splitext_ext. rewrite rfind_dot_last by done. cbn [Nat.add].
  by rewrite take_app_length, drop_app_length.
Qed.

(** The extension is empty or starts with the dot. *)
Lemma splitext_ext_dot name :
  splitext_ext name = [] ∨ ∃ ext, splitext_ext name = 46 :: ext.
Proof.
  destruct (decide (46 ∈ name)) as [Hin|Hnot].
  - destruct (last_dot name Hin) as (stem & ext & -> & Hext).
    rewrite splitext_ext_last_dot by done.
    destruct (forallb _ stem); [by left|right; by exists ext].
  - left. by apply splitext_ext_no_dot.
Qed.

Lemma mem_cons x y l : mem x (y :: l) = str_eqb x y || mem x l.
Proof. reflexivity. Qed.

(** X16: the comment prefix is [# ] exactly for the nine dotted
    extensions of the list, in any case of the letters; the entry
    [makefile] of the list never applies, since an extension is empty
    or starts with a dot: a file without a dot in its name, such as
    [Makefile] or [Dockerfile], gets [// ]. *)
Theorem get_comment_prefix_dotted (filename : str) :
  get_comment_prefix filename
  = (if mem (lower (splitext_ext filename))
          (lit <$> [".py"; ".sh"; ".yaml"; ".yml"; ".conf"; ".ini"; ".rb"; ".pl";
                    ".dockerfile"]%string)
     then lit "# " else lit "// ")
  ∧ (46 ∉ filename → get_comment_prefix filename = lit "// ").
Proof.
  split.
  - unfold get_comment_prefix. cbv zeta.
    cbn [fmap list_fmap]. rewrite !mem_cons.
    assert (str_eqb (lower (splitext_ext filename)) (lit "makefile") = false) as ->.
    { unfold str_eqb. apply bool_decide_eq_false.
      destruct (splitext_ext_dot filename) as [->|[ext ->]]; done. }
    cbn [mem existsb]. by rewrite !orb_false_r.
  - intros H. unfold get_comment_prefix. by rewrite splitext_ext_no_dot.
Qed.

(** X17: a file counts as binary exactly when its name has a last
    dot with more than dots before it and the text from that dot on,
    in lower case, is one of the binary extensions.  So a hidden file
    such as [.lock] is not binary, and neither is a name that ends in
    a dot. *)
Theorem is_binary_file_last_dot (filename : str) :
  is_binary_file filename = true
  ↔ ∃ stem ext,
      filename = stem ++ 46 :: ext
      ∧ (46 ∉ ext)
      ∧ forallb (fun c => c =? 46) stem = false
      ∧ mem (lower (46 :: ext)) BINARY_EXTENSIONS = true.
Proof.
  unfold is_binary_file. split.
  - intros H. destruct (decide (46 ∈ filename)) as [Hin|Hnot].
    + destruct (last_dot filename Hin) as (stem & ext & -> & Hext).
      rewrite splitext_ext_last_dot in H by done.
      destruct (forallb _ stem) eqn:E; [done|]. by exists stem, ext.
    + by rewrite splitext_ext_no_dot in H.
  - intros (stem & ext & -> & Hext & Hstem & Hmem).
    by rewrite splitext_ext_last_dot, Hstem.
Qed.

End ExtensionFacts.


(** ** The temporary clone *)

Section CommandLineFacts.
Import merge_codebase_context.
Variable mkdtemp : gset str → str.
Variable git_clone : str → str → git_result.
Variable run_process_path : str → str → option nat.

Local Abbreviation main := (main mkdtemp git_clone run_process_path).

(** X19: [main] removes nothing but the clone it made, and leaves no
    clone behind but in one case.  For a local source the paths that
    exist stay as they are, and [process_path] runs only when the
    source exists.  For a URL, [process_path] runs on the fresh
    temporary directory, and the directory is gone afterwards, also
    when [git clone] fails with [CalledProcessError] or
    [process_path] raises; only when [git clone] raises another
    exception does the empty directory stay. *)
Theorem main_cleans_up (source output : str) (paths : gset str) :
  mkdtemp paths ∉ paths →
  mkdtemp paths ≠ [] →
  let temp_dir := mkdtemp paths in
  let merged (source : str) :=
    match run_process_path source output with
    | Some count => Merged count
    | None => Raised
    end in
  main source output paths
  = if is_url source then
      match git_clone source temp_dir with
      | Cloned => (merged temp_dir, paths)
      | CalledProcessError => (CloneFailed, paths)
      | OtherError => (Raised, {[temp_dir]} ∪ paths)
      end
    else if bool_decide (source ∈ paths) then (merged source, paths)
    else (NotFound, paths).
Proof.
  intros Hfresh Hname temp_dir merged.
  assert (({[temp_dir]} ∪ paths) ∖ {[temp_dir]} = paths) as Hgone.
  { apply set_eq. intros x. rewrite elem_of_difference, elem_of_union, elem_of_singleton.
    split; [by intros [[->|?] ?]|]. intros Hx. split; [by right|].
    intros ->. done. }
  unfold merge_codebase_context.main, clone_repo. cbv zeta. fold temp_dir.
  destruct (is_url source).
  - destruct (git_clone source temp_dir).
    + rewrite (bool_decide_eq_false_2 (temp_dir = [])) by done.
      rewrite (bool_decide_eq_true_2 (temp_dir ∈ {[temp_dir]} ∪ paths))
        by (apply elem_of_union_l; by apply elem_of_singleton).
      cbn [andb]. by rewrite Hgone.
    + by rewrite Hgone.
    + done.
  - cbn [andb]. by case_bool_decide.
Qed.
End CommandLineFacts.

Lemma main_cleans_up_witness :
  merge_codebase_context.main (fun _ => lit "/tmp/tmpabc")
    (fun _ _ => merge_codebase_context.Cloned) (fun _ _ => None)
    (lit "https://example.org/r.git") (lit "context.txt") {[ lit "src" ]}
  = (merge_codebase_context.Raised, {[ lit "src" ]}).
Proof.
  apply (main_cleans_up (fun _ => lit "/tmp/tmpabc")
           (fun _ _ => merge_codebase_context.Cloned) (fun _ _ => None)
           (lit "https://example.org/r.git") (lit "context.txt") {[ lit "src" ]}).
  - vm_compute. discriminate.
  - vm_compute. discriminate.
Defined.

(** ** The streamed analysis *)

Section AnalysisFacts.
Import research_exa.

Lemma analyze_chunks_streaming_result placeholder stream full_analysis full_reasoning shown :
  (analyze_chunks_streaming placeholder stream full_analysis full_reasoning shown).1
  = analyze_chunks stream full_analysis full_reasoning.
Proof.
  revert full_analysis full_reasoning shown.
  induction stream as [|[content reasoning_content|message] stream IH];
    intros full_analysis full_reasoning shown; [done| |done].
  cbn [analyze_chunks_streaming analyze_chunks].
  destruct (has_text content); apply IH.
Qed.

(** What the placeholder has been shown: texts that start with what
    was shown before them, the last one the text in [last]. *)
Lemma analyze_chunks_streaming_shown stream full_analysis full_reasoning shown :
  existsb is_broken stream = false →
  last (analyze_chunks_streaming true stream full_analysis full_reasoning shown).2
  = Some (analyze_chunks stream full_analysis full_reasoning).1.
Proof.
  revert full_analysis full_reasoning shown.
  induction stream as [|[content reasoning_content|message] stream IH];
    intros full_analysis full_reasoning shown Hok; [|simpl in Hok|done].
  - cbn. by rewrite last_snoc.
  - cbn [analyze_chunks_streaming analyze_chunks].
    destruct (has_text content); by apply IH.
Qed.

(** X20: [analyze_sources_streaming] returns what [analyze_sources]
    returns for the same reply, with or without a placeholder: the
    display changes nothing.  When the stream does not break, the
    last text the placeholder shows is the analysis returned, without
    the cursor. *)
Theorem analyze_sources_streaming_agrees (placeholder : bool)
    (stream : str + list chunk) :
  (analyze_sources_streaming placeholder stream).1 = analyze_sources stream
  ∧ match stream with
    | inr chunks =>
        if existsb is_broken chunks then True
        else last (analyze_sources_streaming true stream).2
             = Some (analyze_sources stream).1
    | inl _ => (analyze_sources_streaming placeholder stream).2 = []
    end.
Proof.
  destruct stream as [message|chunks]; [done|]. split.
  - apply analyze_chunks_streaming_result.
  - destruct (existsb is_broken chunks) eqn:E; [done|].
    by apply analyze_chunks_streaming_shown.
Qed.
End AnalysisFacts.

(** ** The visit tool *)

Section VisitFacts.
Import thinking_ReAct.

(** A greedy star consumes characters of its class only. *)
Lemma star_greedy_run {A} cls s (k : str → option A) r :
  star_greedy cls s k = Some r →
  ∃ j, Forall (fun c => cls c = true) (take j s) ∧ k (drop j s) = Some r.
Proof.
  induction s as [|c s IH]; simpl.
  - intros H. by exists 0%nat.
  - destruct (cls c) eqn:Hc.
    + destruct (star_greedy cls s k) as [r'|] eqn:E.
      * intros [= ->]. destruct (IH eq_refl) as (j & Hj & Hk).
        exists (S j). split; [by constructor|done].
      * intros H. exists 0%nat. split; [constructor|done].
    + intros H. exists 0%nat. split; [constructor|done].
Qed.

(** What the pattern of the blank lines matches: a line feed,
    whitespace, a line feed. *)
Lemma blank_lines_match s rest :
  rmatch blank_lines_pattern s None (fun rest _ => Some rest) = Some rest →
  ∃ w, s = 10 :: w ++ 10 :: rest ∧ Forall (fun c => isspace c = true) w.
Proof.
  unfold blank_lines_pattern. rewrite rmatch_seq, rmatch_lit.
  destruct s as [|c s]; [done|]. cbn [startswith length drop].
  destruct (10 =? c) eqn:Hc; [|done]. apply N.eqb_eq in Hc as <-. cbn [andb].
  rewrite drop_0, rmatch_seq, rmatch_star.
  intros (j & Hw & Hk)%star_greedy_run. rewrite rmatch_lit in Hk.
  destruct (drop j s) as [|c' s'] eqn:Hd; cbn [startswith length drop] in Hk; [done|].
  destruct (10 =? c') eqn:Hc'; [|done]. apply N.eqb_eq in Hc' as <-.
  cbn [andb] in Hk. rewrite drop_0 in Hk. injection Hk as <-.
  exists (take j s). split; [|done]. by rewrite <- Hd, take_drop.
Qed.

Lemma visible_whitespace w : Forall (fun c => isspace c = true) w → visible w = [].
Proof.
  unfold visible. induction 1 as [|c w Hc _ IH]; [done|].
  rewrite filter_cons, IH. by rewrite decide_False by (rewrite Hc; done).
Qed.

Lemma visible_app a b : visible (a ++ b) = visible a ++ visible b.
Proof. apply filter_app. Qed.

Local Abbreviation cleaned fuel s := (re_sub fuel blank_lines_pattern [10; 10] s).

Lemma re_sub_blank_lines fuel s :
  (length s ≤ fuel)%nat →
  visible (cleaned fuel s) = visible s
  ∧ (length (cleaned fuel s) ≤ length s)%nat.
Proof.
  revert s. induction fuel as [|fuel IH]; intros s Hfuel.
  { by destruct s. }
  destruct s as [|c s]; [done|]. cbn [re_sub].
  destruct (rmatch blank_lines_pattern (c :: s) None _) as [rest|] eqn:Hm.
  - apply blank_lines_match in Hm as (w & Hs & Hw). rewrite Hs in *.
    cbn [length] in Hfuel. rewrite length_app in Hfuel. cbn [length] in Hfuel.
    destruct (IH rest ltac:(lia)) as [Hv Hl]. split.
    + change (10 :: w ++ 10 :: rest) with ([10] ++ w ++ [10] ++ rest).
      rewrite !visible_app, Hv, (visible_whitespace w Hw). reflexivity.
    + cbn [app length]. rewrite length_app. cbn [length]. lia.
  - cbn [length] in Hfuel. destruct (IH s ltac:(lia)) as [Hv Hl]. split.
    + change (c :: re_sub fuel blank_lines_pattern [10; 10] s)
        with ([c] ++ re_sub fuel blank_lines_pattern [10; 10] s).
      change (c :: s) with ([c] ++ s). by rewrite !visible_app, Hv.
    + cbn [length]. lia.
Qed.

(** X21: removing the blank lines removes nothing but whitespace:
    the cleaned text of a page holds the characters of the raw text
    that are no whitespace, all of them and in their order, and is no
    longer than the raw text. *)
Theorem clean_keeps_text (raw_text : str) :
  visible (clean raw_text) = visible raw_text
  ∧ (length (clean raw_text) ≤ length raw_text)%nat.
Proof.
  unfold clean. by apply re_sub_blank_lines.
Qed.

Lemma visible_take n s : visible (take n s) `prefix_of` visible s.
Proof.
  rewrite <- (take_drop n s) at 2. rewrite visible_app. by apply prefix_app_r.
Qed.

(** X22: for a response whose first result has a text, [tools_visit]
    returns an observation of three lines' shape: a heading that
    names the URL, the page, the closing line.  The page is at most
    40000 characters long and is the beginning of the cleaned text,
    so that its characters other than whitespace are the beginning of
    those of the raw text. *)
Theorem tools_visit_page (format : json → str) (url : json)
    (res result : list (str * json)) (others : list json) (raw_text : str) :
  dict_lookup (lit "results") res = Some (JArr (JObj result :: others)) →
  dict_lookup (lit "text") result = Some (JStr raw_text) →
  ∃ heading page,
    tools_visit format true (Some (JObj res)) url
    = Some (heading ++ [10] ++ page ++ [10] ++ lit "--- End of Content ---")
    ∧ (heading = lit "--- Content of " ++ format url ++ lit " (Truncated at 40k chars) ---"
       ∨ heading = lit "--- Full Content of " ++ format url ++ lit " ---")
    ∧ page = take max_characters (clean raw_text)
    ∧ (length page ≤ max_characters)%nat
    ∧ visible page `prefix_of` visible raw_text.
Proof.
  intros Hres Htext. unfold tools_visit, research_exa.get, dict_get.
  cbn [negb mbind option_bind]. rewrite Hres.
  cbn [default from_option id truthy first_item].
  rewrite bool_decide_eq_false_2 by done. cbn [negb mbind option_bind].
  rewrite Htext. cbn [default from_option id mbind option_bind]. cbv zeta.
  assert (Hbound : (length (take max_characters (clean raw_text)) ≤ max_characters)%nat).
  { rewrite length_take. lia. }
  assert (Hvis : visible (take max_characters (clean raw_text)) `prefix_of` visible raw_text).
  { destruct (re_sub_blank_lines (length raw_text) raw_text (le_n _)) as [<- _].
    apply visible_take. }
  destruct (max_characters <? length (clean raw_text))%nat eqn:E.
  - eexists _, _. split; [|split; [by left|done]].
    by rewrite <- !(assoc_L (++)).
  - apply Nat.ltb_ge in E.
    exists (lit "--- Full Content of " ++ format url ++ lit " ---"),
      (take max_characters (clean raw_text)).
    split; [|split; [by right|done]].
    rewrite take_ge by done. by rewrite <- !(assoc_L (++)).
Qed.
End VisitFacts.

Lemma tools_visit_page_witness :
  ∃ heading page,
    thinking_ReAct.tools_visit (fun _ => lit "https://example.org") true
      (Some (JObj [(lit "results",
                    JArr [JObj [(lit "text", JStr (lit "a" ++ [10; 32; 10] ++ lit "b"))]])]))
      (JStr (lit "https://example.org"))
    = Some (heading ++ [10] ++ page ++ [10] ++ lit "--- End of Content ---")
    ∧ page = take thinking_ReAct.max_characters
               (thinking_ReAct.clean (lit "a" ++ [10; 32; 10] ++ lit "b")).
Proof.
  destruct (tools_visit_page (fun _ => lit "https://example.org")
              (JStr (lit "https://example.org"))
              [(lit "results",
                JArr [JObj [(lit "text", JStr (lit "a" ++ [10; 32; 10] ++ lit "b"))]])]
              [(lit "text", JStr (lit "a" ++ [10; 32; 10] ++ lit "b"))] []
              (lit "a" ++ [10; 32; 10] ++ lit "b"))
    as (heading & page & H & _ & Hpage & _); [reflexivity|reflexivity|].
  by exists heading, page.
Defined.

(** ** The output file among the files *)

Section OutputFacts.
Import merge_codebase_context.



End OutputFacts.

